(** * Geographic SEO analyzer: a shallow embedding of
      [geographic_seo_analyzer.py] (class [BotFronterasGeoSEO]).

    Conventions of the embedding.
    - Python floats are idealised: the trigonometry of the distance
      calculator is carried out over the real numbers [R]; values that
      the code rounds to two decimals ([distancia_km], [rating_promedio])
      are rationals [Q]; integer quantities are [Z].  Two effects of
      binary floating point are therefore outside the model.  One is
      the side to which [round(x, 2)] falls when the exact value is
      halfway between two hundredths: no statement below depends on
      it.  The other is the [ValueError] of [math.sqrt] when rounding
      carries the haversine quantity one unit in the last place above
      1, at points that are nearly antipodal: where a statement says
      that a distance or a record is returned, it is for the
      coordinates at which the float computation keeps that quantity
      within [0, 1].
    - [None] stands for Python's [None] (or an absent dictionary key,
      where the code uses [dict.get]).
    - Text is ASCII: [str.lower] and [str.strip] act on ASCII letters
      and ASCII white space.
    - Logging is not modelled; the persistence collaborator is modelled
      by a trace of the statements sent on the connection.  Each of its
      calls may raise, [rollback] in the handler included. *)

From Stdlib Require Import List Bool Arith ZArith QArith Qround Qabs Lia.
From Stdlib Require Import String Ascii.
From Stdlib Require Import Sorted Permutation.
From Stdlib Require Import Reals Psatz.
Import ListNotations.

Local Open Scope string_scope.
Local Open Scope list_scope.

(** ** Strings: the fragment of [str] used by the presence matcher *)

Module Str.

(** [c.lower()] on one ASCII character. *)
Definition lower_ascii (c : ascii) : ascii :=
  let n := nat_of_ascii c in
  if (65 <=? n)%nat && (n <=? 90)%nat then ascii_of_nat (n + 32) else c.

(** [s.lower()]. *)
Fixpoint lower (s : string) : string :=
  match s with
  | EmptyString => EmptyString
  | String c r => String (lower_ascii c) (lower r)
  end.

(** White space removed by [str.strip()]: TAB, LF, VT, FF, CR, the
    separators FS, GS, RS, US and the blank. *)
Definition is_space (c : ascii) : bool :=
  let n := nat_of_ascii c in
  ((9 <=? n)%nat && (n <=? 13)%nat)
  || ((28 <=? n)%nat && (n <=? 32)%nat).

Fixpoint lstrip (s : string) : string :=
  match s with
  | EmptyString => EmptyString
  | String c r => if is_space c then lstrip r else s
  end.

(** [rstrip] keeps a character when it is not white space or when
    something is left after it. *)
Fixpoint rstrip (s : string) : string :=
  match s with
  | EmptyString => EmptyString
  | String c r =>
      match rstrip r with
      | EmptyString => if is_space c then EmptyString else String c EmptyString
      | r' => String c r'
      end
  end.

(** [s.strip()]. *)
Definition strip (s : string) : string := rstrip (lstrip s).

(** [s.split(sep)] for a one-character separator: never empty. *)
Fixpoint split (sep : ascii) (s : string) : list string :=
  match s with
  | EmptyString => [EmptyString]
  | String c r =>
      if Ascii.eqb c sep then EmptyString :: split sep r
      else match split sep r with
           | [] => [String c EmptyString]
           | w :: ws => String c w :: ws
           end
  end.

(** [needle in hay]. *)
Fixpoint contains (needle hay : string) : bool :=
  String.prefix needle hay
  || match hay with
     | EmptyString => false
     | String _ r => contains needle r
     end.

End Str.

(** ** Data model *)

(** One entry of the [results] array of the search response.  The three
    keys are read with [dict.get], so each may be absent. *)
Record place := mk_place {
  place_name : option string;
  place_rating : option Q;
  place_user_ratings_total : option Z
}.

(** A test location of [ciudades_test]; a coordinate may be null. *)
Record ciudad_t := mk_ciudad {
  c_name : string;
  c_lat : option R;
  c_lng : option R;
  c_zip : option string
}.

(** The dictionary [resultado] built by [analizar_ciudad]. *)
Record resultado := mk_resultado {
  ciudad : string;
  zip : string;
  tier : string;
  keyword : string;
  aparece : bool;
  posicion : option Z;
  distancia_km : Q;
  lat : option R;
  lng : option R;
  total_competidores : Z;
  rating_promedio : Q;
  reviews_promedio : Z
}.

(** The part of the bot's configuration the analysis reads: the base
    location and the environment variable [BUSINESS_KEYWORDS]. *)
Record bot := mk_bot {
  base_lat : option R;
  base_lng : option R;
  business_keywords_env : option string
}.

(** ** Presence matcher: [_es_tu_negocio] *)

Definition business_terms (env : option string) : list string :=
  Str.split ","%char
    (Str.lower (match env with Some v => v | None => "your business" end)).

Definition _es_tu_negocio (env : option string) (p : place) : bool :=
  let nombre :=
    Str.lower (match place_name p with Some n => n | None => "" end) in
  existsb (fun term => Str.contains (Str.strip term) nombre)
          (business_terms env).

(** ** Floating-point helpers, idealised over the reals *)

(** [math.radians]. *)
Definition radians (x : R) : R := (x * (PI / 180))%R.

(** [math.sqrt] raises [ValueError] on a negative argument: [None]. *)
Definition math_sqrt (x : R) : option R :=
  if Rlt_dec x 0 then None else Some (sqrt x).

(** [math.atan2 y x], by quadrant. *)
Definition math_atan2 (y x : R) : R :=
  match total_order_T x 0 with
  | inright _ => atan (y / x)
  | inleft (left _) =>
      if Rle_dec 0 y then (atan (y / x) + PI)%R else (atan (y / x) - PI)%R
  | inleft (right _) =>
      match total_order_T y 0 with
      | inright _ => (PI / 2)%R
      | inleft (left _) => (- (PI / 2))%R
      | inleft (right _) => 0%R
      end
  end.

(** Rounding to the nearest integer, ties to the even one, as [round]
    does; on a real and on a rational. *)
Definition round_half_even_R (x : R) : Z :=
  let f := Int_part x in
  let d := (x - IZR f)%R in
  if Rlt_dec d (1 / 2) then f
  else if Rlt_dec (1 / 2) d then (f + 1)%Z
  else if Z.even f then f else (f + 1)%Z.

Definition round_half_even_Q (q : Q) : Z :=
  let f := Qfloor q in
  match Qcompare (q - inject_Z f) (1 # 2) with
  | Lt => f
  | Gt => (f + 1)%Z
  | Eq => if Z.even f then f else (f + 1)%Z
  end.

(** [round(x, 2)], on the exact value.  When that value is halfway
    between two hundredths the program's result depends on the binary
    float that stands for it; the model takes the even neighbour, and
    the statements about rounded values hold for either. *)
Definition round2_R (x : R) : Q := Qmake (round_half_even_R (x * 100)) 100.
Definition round2_Q (q : Q) : Q := Qmake (round_half_even_Q (q * 100)) 100.

(** Truth value of a coordinate: [None] and [0.0] are false. *)
Definition truthy (c : option R) : bool :=
  match c with
  | None => false
  | Some x => if Req_dec_T x 0 then false else true
  end.

(** ** Distance calculator: [_calcular_distancia] *)

(** The quantity [a] of the formula. *)
Definition haversine_a (lat1 lng1 lat2 lng2 : R) : R :=
  let dlat := radians (lat2 - lat1) in
  let dlng := radians (lng2 - lng1) in
  (sin (dlat / 2) * sin (dlat / 2) +
   cos (radians lat1) * cos (radians lat2) *
   sin (dlng / 2) * sin (dlng / 2))%R.

(** The body after the guard, on four numbers.  [None] is the
    [ValueError] of [math.sqrt]. *)
Definition haversine (lat1 lng1 lat2 lng2 : R) : option R :=
  let a := haversine_a lat1 lng1 lat2 lng2 in
  match math_sqrt a, math_sqrt (1 - a) with
  | Some sa, Some sb =>
      let c := (2 * math_atan2 sa sb)%R in
      Some (6371 * c)%R
  | _, _ => None
  end.

Definition _calcular_distancia (lat1 lng1 lat2 lng2 : option R) : option R :=
  if negb (forallb truthy [lat1; lng1; lat2; lng2]) then Some 0%R
  else
    match lat1, lng1, lat2, lng2 with
    | Some a1, Some g1, Some a2, Some g2 => haversine a1 g1 a2 g2
    | _, _, _, _ => Some 0%R (* not reached: a null coordinate is false *)
    end.

(** ** Persistence collaborator: [_guardar_resultado] *)

(** Statements sent on [db_conn]. *)
Inductive sql :=
| Insert (r : resultado)
| Commit
| Rollback.

(** What the database does with one write.  It goes through; or
    [db_conn.cursor()], [cur.execute] or [commit] raises and the
    [rollback] of the handler completes; or one of the three raises and
    [rollback] raises in its turn (a lost connection), so that the
    exception leaves [_guardar_resultado]. *)
Inductive db_outcome :=
| DbOk
| DbCursorFails
| DbExecuteFails
| DbCommitFails
| DbCursorFailsRollbackRaises
| DbExecuteFailsRollbackRaises
| DbCommitFailsRollbackRaises.

(** The outcomes in which the handler itself raises. *)
Definition rollback_raises (o : db_outcome) : bool :=
  match o with
  | DbCursorFailsRollbackRaises
  | DbExecuteFailsRollbackRaises
  | DbCommitFailsRollbackRaises => true
  | _ => false
  end.

(** The table [maps_analisis_geografico] (committed rows, oldest first)
    and the trace of statements. *)
Record estado := mk_estado {
  tabla : list resultado;
  sentencias : list sql
}.

Definition estado_inicial : estado := mk_estado [] [].

(** [_guardar_resultado]: [Some tt] when the call returns, [None] when
    an exception leaves it; with the persistence state it leaves.  A
    statement is in the trace when it was sent before anything raised;
    a [rollback] that raises is not. *)
Definition _guardar_resultado (o : db_outcome) (r : resultado) (st : estado)
  : option unit * estado :=
  match o with
  | DbOk =>
      (Some tt,
       mk_estado (tabla st ++ [r]) (sentencias st ++ [Insert r; Commit]))
  | DbCursorFails =>
      (Some tt, mk_estado (tabla st) (sentencias st ++ [Rollback]))
  | DbExecuteFails =>
      (Some tt, mk_estado (tabla st) (sentencias st ++ [Insert r; Rollback]))
  | DbCommitFails =>
      (Some tt,
       mk_estado (tabla st) (sentencias st ++ [Insert r; Commit; Rollback]))
  | DbCursorFailsRollbackRaises =>
      (None, st)
  | DbExecuteFailsRollbackRaises =>
      (None, mk_estado (tabla st) (sentencias st ++ [Insert r]))
  | DbCommitFailsRollbackRaises =>
      (None, mk_estado (tabla st) (sentencias st ++ [Insert r; Commit]))
  end.

(** Number of persistence writes in a trace. *)
Definition es_insert (s : sql) : bool :=
  match s with Insert _ => true | _ => false end.

Definition escrituras (st : estado) : nat :=
  List.length (filter es_insert (sentencias st)).

(** The outcomes in which the insert is sent: all but those in which
    the cursor cannot be opened. *)
Definition envia_insert (o : db_outcome) : bool :=
  match o with
  | DbCursorFails | DbCursorFailsRollbackRaises => false
  | _ => true
  end.

(** ** Search collaborator *)

(** The decoded body: [data['status']] and [data.get('results', [])]. *)
Record datos := mk_datos {
  d_status : option string;
  d_results : option (list place)
}.

(** [requests.get] raises, or answers with a status code and a body
    ([None] when [response.json()] raises). *)
Inductive respuesta :=
| RequestException
| HttpResponse (status_code : Z) (json : option datos).

(** ** Point analyzer: [analizar_ciudad] *)

(** The loop [for idx, place in enumerate(places[:20])], from index
    [idx]: the position of the first match. *)
Fixpoint buscar_posicion (env : option string) (ps : list place) (idx : Z)
  : option Z :=
  match ps with
  | [] => None
  | p :: rest =>
      if _es_tu_negocio env p then Some (idx + 1)%Z
      else buscar_posicion env rest (idx + 1)%Z
  end.

Definition tu_posicion (env : option string) (places : list place)
  : option Z :=
  buscar_posicion env (firstn 20 places) 0%Z.

Definition competidores (env : option string) (places : list place)
  : list place :=
  filter (fun p => negb (_es_tu_negocio env p)) places.

Definition get_rating (p : place) : Q :=
  match place_rating p with Some q => q | None => 0%Q end.

Definition get_user_ratings_total (p : place) : Z :=
  match place_user_ratings_total p with Some n => n | None => 0%Z end.

Definition sum_Q (l : list Q) : Q := fold_left Qplus l 0%Q.
Definition sum_Z (l : list Z) : Z := fold_left Z.add l 0%Z.

Definition len {A : Type} (l : list A) : Z := Z.of_nat (List.length l).

(** [sum(...) / len(competidores) if competidores else 0]. *)
Definition calc_rating_promedio (comp : list place) : Q :=
  match comp with
  | [] => 0%Q
  | _ => (sum_Q (map get_rating comp) / inject_Z (len comp))%Q
  end.

(** [int(sum(...) / len(competidores) if competidores else 0)]: the
    quotient is truncated towards zero. *)
Definition calc_reviews_promedio (comp : list place) : Z :=
  match comp with
  | [] => 0%Z
  | _ => Z.quot (sum_Z (map get_user_ratings_total comp)) (len comp)
  end.

Definition is_some {A : Type} (o : option A) : bool :=
  match o with Some _ => true | None => false end.

(** The dictionary [resultado] assembled from a list of places. *)
Definition construir_resultado (b : bot) (c : ciudad_t) (kw tr : string)
  (places : list place) (distancia : R) : resultado :=
  let env := business_keywords_env b in
  let pos := tu_posicion env places in
  let comp := competidores env places in
  {| ciudad := c_name c;
     zip := match c_zip c with Some z => z | None => "" end;
     tier := tr;
     keyword := kw;
     aparece := is_some pos;
     posicion := pos;
     distancia_km := round2_R distancia;
     lat := c_lat c;
     lng := c_lng c;
     total_competidores := len places;
     rating_promedio := round2_Q (calc_rating_promedio comp);
     reviews_promedio := calc_reviews_promedio comp |}.

(** [analizar_ciudad]: the answer of the search collaborator and the
    behaviour of the database are inputs; the result is the returned
    value ([None] for Python's [None]) and the new persistence state.
    Every exception raised in the body is caught and gives [None]; so
    is one that leaves [_guardar_resultado], called inside the [try]. *)
Definition analizar_ciudad (b : bot) (resp : respuesta) (o : db_outcome)
  (c : ciudad_t) (kw tr : string) (st : estado) : option resultado * estado :=
  match resp with
  | RequestException => (None, st)
  | HttpResponse code body =>
      if (code =? 200)%Z then
        match body with
        | None => (None, st)
        | Some data =>
            match d_status data with
            | None => (None, st)
            | Some s =>
                if String.eqb s "OK" then
                  let places :=
                    match d_results data with Some l => l | None => [] end in
                  match _calcular_distancia (base_lat b) (base_lng b)
                                            (c_lat c) (c_lng c) with
                  | None => (None, st)
                  | Some distancia =>
                      let r := construir_resultado b c kw tr places distancia in
                      match _guardar_resultado o r st with
                      | (Some _, st') => (Some r, st')
                      | (None, st') => (None, st')
                      end
                  end
                else (None, st)
            end
        end
      else (None, st)
  end.

(** ** Exceptions *)

(** A computation that may raise: [None] is a raised exception. *)
Definition bind {A B : Type} (m : option A) (k : A -> option B) : option B :=
  match m with Some a => k a | None => None end.

Notation "x <- m ;; k" := (bind m (fun x => k))
  (at level 61, m at next level, right associativity).

Fixpoint mapM {A B : Type} (f : A -> option B) (l : list A)
  : option (list B) :=
  match l with
  | [] => Some []
  | a :: r => b <- f a ;; bs <- mapM f r ;; Some (b :: bs)
  end.

(** ** Dominance aggregator: [_generar_mapa_dominio] *)

Definition Qlt_bool (x y : Q) : bool := negb (Qle_bool y x).

(** [max] and [min] of a sequence keep the first extremal element;
    on an empty sequence they raise. *)
Fixpoint max_from (m : Q) (l : list Q) : Q :=
  match l with
  | [] => m
  | x :: r => max_from (if Qlt_bool m x then x else m) r
  end.

Fixpoint min_from (m : Q) (l : list Q) : Q :=
  match l with
  | [] => m
  | x :: r => min_from (if Qlt_bool x m then x else m) r
  end.

Definition py_max (l : list Q) : option Q :=
  match l with [] => None | x :: r => Some (max_from x r) end.

Definition py_min (l : list Q) : option Q :=
  match l with [] => None | x :: r => Some (min_from x r) end.

(** [sum(r['posicion'] for r in rs)]: adding [None] raises [TypeError]. *)
Definition sum_posiciones (rs : list resultado) : option Z :=
  ps <- mapM posicion rs ;; Some (sum_Z ps).

(** True division of two integers; dividing by zero raises. *)
Definition truediv (s n : Z) : option Q :=
  if (n =? 0)%Z then None else Some (inject_Z s / inject_Z n)%Q.

(** [sorted(set(names))]: the distinct names in increasing order. *)
Fixpoint insertar_nombre (x : string) (l : list string) : list string :=
  match l with
  | [] => [x]
  | y :: r => if String.ltb y x then y :: insertar_nombre x r else x :: l
  end.

Definition sorted_set (names : list string) : list string :=
  fold_right insertar_nombre [] (nodup string_dec names).

Record zona := mk_zona {
  z_tier : string;
  z_apariciones : Z;
  z_total : Z;
  z_cobertura : Q;
  z_ciudades : list (string * Q)
}.

Inductive informe_dominio :=
| SinApariciones
| Dominio (distancia_max distancia_min posicion_promedio : Q)
          (zonas : list zona).

Definition tiers : list string :=
  ["tier_1_immediate"; "tier_2_nearby"; "tier_3_medium"; "tier_4_distant"].

(** One turn of the loop over the tiers; [None] inside [Some] is a tier
    without any result, for which nothing is reported. *)
Definition zona_de (resultados apariciones : list resultado) (t : string)
  : option (option zona) :=
  let tier_apariciones := filter (fun r => String.eqb (tier r) t) apariciones in
  let tier_total := len (filter (fun r => String.eqb (tier r) t) resultados) in
  if (0 <? tier_total)%Z then
    let cobertura :=
      (inject_Z (len tier_apariciones) / inject_Z tier_total * 100)%Q in
    cs <- mapM (fun c =>
                  let ciudad_results :=
                    filter (fun r => String.eqb (ciudad r) c) tier_apariciones in
                  s <- sum_posiciones ciudad_results ;;
                  m <- truediv s (len ciudad_results) ;;
                  Some (c, m))
               (sorted_set (map ciudad tier_apariciones)) ;;
    Some (Some (mk_zona t (len tier_apariciones) tier_total cobertura cs))
  else Some None.

Fixpoint somes {A : Type} (l : list (option A)) : list A :=
  match l with
  | [] => []
  | Some a :: r => a :: somes r
  | None :: r => somes r
  end.

Definition _generar_mapa_dominio (resultados : list resultado)
  : option informe_dominio :=
  let apariciones := filter aparece resultados in
  match apariciones with
  | [] => Some SinApariciones
  | _ =>
      distancia_max <- py_max (map distancia_km apariciones) ;;
      distancia_min <- py_min (map distancia_km apariciones) ;;
      s <- sum_posiciones apariciones ;;
      posicion_promedio <- truediv s (len apariciones) ;;
      zs <- mapM (zona_de resultados apariciones) tiers ;;
      Some (Dominio distancia_max distancia_min posicion_promedio (somes zs))
  end.

(** ** Opportunity ranker: [_generar_recomendaciones_expansion] *)

(** A value of the dictionary [ciudades_oportunidad]. *)
Record oportunidad := mk_oportunidad {
  distancia : Q;
  o_tier : string;
  o_competidores : Z;
  rating_competidores : Q;
  reviews_competidores : Z
}.

Definition oportunidad_de (r : resultado) : oportunidad :=
  {| distancia := distancia_km r;
     o_tier := tier r;
     o_competidores := total_competidores r;
     rating_competidores := rating_promedio r;
     reviews_competidores := reviews_promedio r |}.

(** A dictionary keeps its keys in insertion order; assigning to a key
    already present replaces the value in place. *)
Definition dict := list (string * oportunidad).

Fixpoint dict_set (d : dict) (k : string) (v : oportunidad) : dict :=
  match d with
  | [] => [(k, v)]
  | (k', v') :: r =>
      if String.eqb k' k then (k, v) :: r else (k', v') :: dict_set r k v
  end.

(** The loop [for ciudad in set(...)], over the names in the order in
    which the set yields them; [[...][0]] on no match raises
    [IndexError]. *)
Fixpoint construir_oportunidades (no_apariciones : list resultado)
  (orden : list string) (d : dict) : option dict :=
  match orden with
  | [] => Some d
  | c :: rest =>
      match filter (fun r => String.eqb (ciudad r) c) no_apariciones with
      | [] => None
      | ciudad_data :: _ =>
          construir_oportunidades no_apariciones rest
            (dict_set d c (oportunidad_de ciudad_data))
      end
  end.

(** [sorted(items, key=distancia)]: a stable sort; an item goes in
    front of the first one that is not smaller. *)
Fixpoint insertar (x : string * oportunidad) (l : dict) : dict :=
  match l with
  | [] => [x]
  | y :: r =>
      if Qlt_bool (distancia (snd y)) (distancia (snd x))
      then y :: insertar x r
      else x :: l
  end.

Definition sorted_por_distancia (d : dict) : dict :=
  fold_right insertar [] d.

Inductive dificultad := EASY | MEDIUM | HARD.

Definition dificultad_de (reviews : Z) : dificultad :=
  if (reviews <? 100)%Z then EASY
  else if (reviews <? 200)%Z then MEDIUM
  else HARD.

(** One entry of the report: rank, location, data and label. *)
Record candidato := mk_candidato {
  cand_i : Z;
  cand_ciudad : string;
  cand_data : oportunidad;
  cand_dificultad : dificultad
}.

Fixpoint enumerar (i : Z) (l : dict) : list candidato :=
  match l with
  | [] => []
  | (c, data) :: r =>
      mk_candidato i c data (dificultad_de (reviews_competidores data))
        :: enumerar (i + 1)%Z r
  end.

Definition no_apariciones (resultados : list resultado) : list resultado :=
  filter (fun r => negb (aparece r)) resultados.

(** The set of location names is iterated in an order [iter] that the
    language leaves open: it is an input of the model.  The three values
    are the dictionary [ciudades_oportunidad], the list
    [ciudades_ordenadas] and the reported top ten. *)
Definition ciudades_oportunidad (iter : list string -> list string)
  (resultados : list resultado) : option dict :=
  let na := no_apariciones resultados in
  construir_oportunidades na (iter (map ciudad na)) [].

Definition ciudades_ordenadas (iter : list string -> list string)
  (resultados : list resultado) : option dict :=
  d <- ciudades_oportunidad iter resultados ;;
  Some (sorted_por_distancia d).

Definition _generar_recomendaciones_expansion
  (iter : list string -> list string) (resultados : list resultado)
  : option (list candidato) :=
  l <- ciudades_ordenadas iter resultados ;;
  Some (enumerar 1 (firstn 10 l)).

(** An iteration order is admissible when it yields every element of
    the set once. *)
Definition orden_de_set (iter : list string -> list string) : Prop :=
  forall l, NoDup (iter l) /\ (forall x, In x (iter l) <-> In x l).

(** The order of first occurrence is one of them. *)
Fixpoint primera_aparicion (l : list string) : list string :=
  match l with
  | [] => []
  | x :: r =>
      x :: filter (fun y => negb (String.eqb y x)) (primera_aparicion r)
  end.

(** ** Campaign runner: [ejecutar_analisis_fronteras] *)

(** What the outside world does at one query: the answer of the search
    service and the behaviour of the database.  The pacing delay is not
    modelled. *)
Definition mundo := ciudad_t -> string -> respuesta * db_outcome.

(** The three nested loops, flattened: tiers in declared order, then
    locations, then keywords. *)
Definition combinaciones (ciudades_test : list (string * list ciudad_t))
  (core_keywords : list string) : list (string * ciudad_t * string) :=
  flat_map (fun tc =>
              flat_map (fun c => map (fun kw => (fst tc, c, kw)) core_keywords)
                       (snd tc))
           ciudades_test.

(** One turn of the innermost loop: a result that is not [None] is
    appended to [resultados_totales]. *)
Definition paso (b : bot) (w : mundo)
  (acc : list resultado * estado) (q : string * ciudad_t * string)
  : list resultado * estado :=
  let '(tier_name, c, kw) := q in
  let '(resp, o) := w c kw in
  match analizar_ciudad b resp o c kw tier_name (snd acc) with
  | (Some r, st') => (fst acc ++ [r], st')
  | (None, st') => (fst acc, st')
  end.

(** The accumulated results and the final persistence state. *)
Definition recorrer (b : bot) (w : mundo)
  (ciudades_test : list (string * list ciudad_t))
  (core_keywords : list string) (st : estado) : list resultado * estado :=
  fold_left (paso b w) (combinaciones ciudades_test core_keywords) ([], st).

(** The run: the results, then the two reports over all of them; the
    set iteration order [iter] is the one met by the ranker. *)
Definition ejecutar_analisis_fronteras (b : bot) (w : mundo)
  (iter : list string -> list string)
  (ciudades_test : list (string * list ciudad_t))
  (core_keywords : list string) (st : estado)
  : option (list resultado * informe_dominio * list candidato) * estado :=
  let '(resultados_totales, st') :=
    recorrer b w ciudades_test core_keywords st in
  (mapa <- _generar_mapa_dominio resultados_totales ;;
   recomendaciones <-
     _generar_recomendaciones_expansion iter resultados_totales ;;
   Some (resultados_totales, mapa, recomendaciones),
   st').

(** ** Notions of the specification, for comparison with the code *)

(** A success response of the search collaborator: HTTP 200 with a
    decoded body whose status is [OK]. *)
Definition respuesta_exitosa (resp : respuesta) : bool :=
  match resp with
  | HttpResponse code (Some data) =>
      (code =? 200)%Z
      && match d_status data with
         | Some s => String.eqb s "OK"
         | None => false
         end
  | _ => false
  end.

(** The entities returned by the search collaborator. *)
Definition lugares (resp : respuesta) : list place :=
  match resp with
  | HttpResponse _ (Some data) =>
      match d_results data with Some l => l | None => [] end
  | _ => []
  end.

(** Arithmetic mean of a list of rationals, 0 on the empty list. *)
Definition media (l : list Q) : Q :=
  match l with
  | [] => 0%Q
  | _ => (sum_Q l / inject_Z (len l))%Q
  end.

(** Integer part of a rational, towards zero. *)
Definition Qtruncate (q : Q) : Z := Z.quot (Qnum q) (Zpos (Qden q)).

(** Deduplication by location name, first one in input order wins. *)
Fixpoint deduplicar (rs : list resultado) : list resultado :=
  match rs with
  | [] => []
  | r :: rest =>
      r :: filter (fun r' => negb (String.eqb (ciudad r') (ciudad r)))
                  (deduplicar rest)
  end.

(** The opportunity ranker as the specification words it: filter, keep
    the first result of each location, sort by distance with a stable
    sort of the input order, keep ten. *)
Definition rank_spec (resultados : list resultado) : list candidato :=
  enumerar 1
    (firstn 10
       (sorted_por_distancia
          (map (fun r => (ciudad r, oportunidad_de r))
               (deduplicar (no_apariciones resultados))))).

(** The invariant of an analysis result: found exactly when it has a
    rank position. *)
Definition bien_formado (r : resultado) : Prop :=
  aparece r = is_some (posicion r).

(** ** Auxiliary notions used in the statements *)

(** Every result of the list carries a rank position. *)
Definition con_posicion (l : list resultado) : Prop :=
  forall r, In r l -> exists k, posicion r = Some k.

(** The dictionary entry derived from a result. *)
Definition entrada_de (r : resultado) : string * oportunidad :=
  (ciudad r, oportunidad_de r).

(** The entry the loop computes for a location name: that of the first
    non-present result bearing the name. *)
Definition entrada (na : list resultado) (c : string)
  : option (string * oportunidad) :=
  match filter (fun r => String.eqb (ciudad r) c) na with
  | [] => None
  | ciudad_data :: _ => Some (c, oportunidad_de ciudad_data)
  end.

(** Sort key of a dictionary item, and the order and the ties on it. *)
Definition clave (e : string * oportunidad) : Q := distancia (snd e).

Definition le_distancia (x y : string * oportunidad) : Prop :=
  (clave x <= clave y)%Q.

Definition a_distancia (q : Q) (e : string * oportunidad) : bool :=
  Qeq_bool (clave e) q.

(** An admissible iteration order other than that of first occurrence. *)
Definition orden_inverso (l : list string) : list string :=
  rev (primera_aparicion l).

(** ** Notions used for the campaign runner *)

(** A query of the run that meets a success response. *)
Definition exitosa (w : mundo) (q : string * ciudad_t * string) : bool :=
  let '(_, c, kw) := q in respuesta_exitosa (fst (w c kw)).

(** A query whose record reaches the accumulator: a success response,
    and a write whose handler does not raise. *)
Definition entregada (w : mundo) (q : string * ciudad_t * string) : bool :=
  let '(_, c, kw) := q in
  respuesta_exitosa (fst (w c kw)) && negb (rollback_raises (snd (w c kw))).

(** A query for which an insert is sent: a success response, and a
    cursor that opens. *)
Definition insertada (w : mundo) (q : string * ciudad_t * string) : bool :=
  let '(_, c, kw) := q in
  respuesta_exitosa (fst (w c kw)) && envia_insert (snd (w c kw)).

(** The tier, location name and keyword a record was made for, and
    those of a query. *)
Definition etiqueta (r : resultado) : string * string * string :=
  (tier r, ciudad r, keyword r).

Definition etiqueta_consulta (q : string * ciudad_t * string)
  : string * string * string :=
  let '(t, c, kw) := q in (t, c_name c, kw).

(** ** Notions used for the coverage by tier *)

(** The filter [r['tier'] == tier]. *)
Definition por_tier (t : string) (r : resultado) : bool :=
  String.eqb (tier r) t.

(** Names in strictly increasing order. *)
Definition nombre_lt (a b : string) : Prop := String.ltb a b = true.

(** What every record of the point analyzer satisfies: the invariant
    of analysis results, a distance that is not negative and a rank
    position, if any, among the first 20. *)
Definition registro_valido (r : resultado) : Prop :=
  bien_formado r
  /\ (0 <= distancia_km r)%Q
  /\ (forall k, posicion r = Some k -> (1 <= k <= 20)%Z).

(** ** Sample inputs *)

(** The configured base, with [BUSINESS_KEYWORDS] naming the subject. *)
Definition bot_acme : bot :=
  mk_bot (Some 33.9616%R) (Some (-118.3531)%R) (Some "Acme Cleaning, acme").

Definition lennox : ciudad_t :=
  mk_ciudad "Lennox" (Some 33.9386%R) (Some (-118.3531)%R) (Some "90304").

Definition p_acme : place :=
  mk_place (Some "ACME Cleaning Co") (Some 4.8%Q) (Some 320%Z).
Definition p_sparkle : place :=
  mk_place (Some "Sparkle Maids") (Some 4.0%Q) (Some 50%Z).
Definition p_bright : place :=
  mk_place (Some "Bright Homes") (Some 5.0%Q) (Some 150%Z).
Definition p_tidy : place :=
  mk_place (Some "Tidy Up") (Some 4.5%Q) (Some 151%Z).
Definition p_mops : place :=
  mk_place (Some "Mops and More") (Some 4.5%Q) (Some 100%Z).

(** A success response carrying the given entities. *)
Definition resp_ok (places : list place) : respuesta :=
  HttpResponse 200 (Some (mk_datos (Some "OK") (Some places))).

(** A result record for a location at a given distance. *)
Definition muestra (c tr kw : string) (pos : option Z) (d : Q)
  (rating : Q) (reviews : Z) : resultado :=
  {| ciudad := c; zip := ""; tier := tr; keyword := kw;
     aparece := is_some pos; posicion := pos; distancia_km := d;
     lat := Some 33.9%R; lng := Some (-118.3)%R;
     total_competidores := 20; rating_promedio := rating;
     reviews_promedio := reviews |}.

(** Presence at 2, 4 and 9 km, none at 12 km. *)
Definition rs_presencia : list resultado :=
  [ muestra "Lennox" "tier_1_immediate" "house cleaning" (Some 1%Z) 2.0 4.2 80;
    muestra "Westchester" "tier_1_immediate" "house cleaning" (Some 4%Z) 4.0 4.1 60;
    muestra "Torrance" "tier_3_medium" "house cleaning" None 12.0 4.6 250;
    muestra "Culver City" "tier_2_nearby" "maid service" (Some 7%Z) 9.0 4.4 120 ].

(** Lennox found for one keyword and not for another. *)
Definition rs_parcial : list resultado :=
  [ muestra "Lennox" "tier_1_immediate" "house cleaning" (Some 2%Z) 2.56 4.2 80;
    muestra "Lennox" "tier_1_immediate" "maid service" None 2.56 4.4 95 ].

(** Two absent locations at the same distance. *)
Definition rs_empate : list resultado :=
  [ muestra "Hawthorne" "tier_2_nearby" "house cleaning" None 5.03 4.2 80;
    muestra "Gardena" "tier_2_nearby" "house cleaning" None 5.03 4.4 210 ].

(** Three absent locations at 10, 3 and 7 km, one of them twice. *)
Definition rs_ausentes : list resultado :=
  [ muestra "Torrance" "tier_3_medium" "house cleaning" None 10.0 4.6 250;
    muestra "Hawthorne" "tier_2_nearby" "house cleaning" None 3.0 4.2 99;
    muestra "Hawthorne" "tier_2_nearby" "maid service" None 3.0 4.0 40;
    muestra "Gardena" "tier_2_nearby" "house cleaning" None 7.0 4.4 100 ].

(** ** Further sample inputs *)

(** A competitor rated 4.3: with [p_sparkle], [p_tidy] and [p_mops] the
    mean rating is 4.325, halfway between two hundredths. *)
Definition p_shine : place :=
  mk_place (Some "Shine Crew") (Some 4.3%Q) (Some 80%Z).

(** Eleven absent locations, Hawthorne for two keywords; Torrance is
    the farthest. *)
Definition r_torrance : resultado :=
  muestra "Torrance" "tier_3_medium" "house cleaning" None 14.04 4.6 250.

Definition rs_once : list resultado :=
  [ muestra "Hawthorne" "tier_2_nearby" "house cleaning" None 5.03 4.2 99;
    muestra "El Segundo" "tier_2_nearby" "house cleaning" None 7.53 4.5 120;
    muestra "Manhattan Beach" "tier_2_nearby" "house cleaning" None 10.1 4.7 310;
    muestra "Hawthorne" "tier_2_nearby" "maid service" None 5.03 4.0 40;
    r_torrance;
    muestra "Culver City" "tier_2_nearby" "house cleaning" None 7.74 4.4 205;
    muestra "Gardena" "tier_2_nearby" "house cleaning" None 9.1 4.1 75;
    muestra "Lawndale" "tier_2_nearby" "house cleaning" None 8.27 4.3 60;
    muestra "Redondo Beach" "tier_3_medium" "house cleaning" None 12.92 4.6 180;
    muestra "Hermosa Beach" "tier_3_medium" "house cleaning" None 11.85 4.8 150;
    muestra "Marina del Rey" "tier_3_medium" "house cleaning" None 9.33 4.5 199;
    muestra "Playa Vista" "tier_3_medium" "house cleaning" None 6.6 4.4 100 ].

Definition hawthorne : ciudad_t :=
  mk_ciudad "Hawthorne" (Some 33.9164%R) (Some (-118.3526)%R) (Some "90250").

Definition ciudades_muestra : list (string * list ciudad_t) :=
  [("tier_1_immediate", [lennox]); ("tier_2_nearby", [hawthorne])].

Definition keywords_muestra : list string :=
  ["house cleaning"; "maid service"].

(** A search service that finds the subject around Lennox, finds only
    competitors around Hawthorne for one keyword and fails there for
    the other; with a database that accepts every write, and with one
    that refuses them all. *)
Definition busqueda_muestra (c : ciudad_t) (kw : string) : respuesta :=
  if String.eqb (c_name c) "Lennox" then resp_ok [p_sparkle; p_acme]
  else if String.eqb kw "maid service" then resp_ok [p_bright; p_tidy]
  else HttpResponse 500 None.

Definition mundo_sano : mundo := fun c kw => (busqueda_muestra c kw, DbOk).
Definition mundo_caido : mundo :=
  fun c kw => (busqueda_muestra c kw, DbExecuteFails).

(** A database whose connection is lost once the run reaches
    Hawthorne: [execute] raises there, and so does [rollback]. *)
Definition mundo_conexion_perdida : mundo :=
  fun c kw =>
    (busqueda_muestra c kw,
     if String.eqb (c_name c) "Hawthorne"
     then DbExecuteFailsRollbackRaises else DbOk).

(** * Properties *)

(** ** Presence matcher *)

Example es_tu_negocio_abc :
  _es_tu_negocio (Some "Cleaning")
     (mk_place (Some "ABC Cleaning Co") None None) = true.
Proof. reflexivity. Qed.

Example es_tu_negocio_xyz :
  _es_tu_negocio (Some "acme, cleaning ")
     (mk_place (Some "XYZ") None None) = false.
Proof. reflexivity. Qed.


Example lower_abc : Str.lower "ABC Cleaning Co" = "abc cleaning co".
Proof. reflexivity. Qed.

Example split_terms :
  Str.split ","%char "acme, cleaning ,," = ["acme"; " cleaning "; ""; ""].
Proof. reflexivity. Qed.

Example strip_term : Str.strip "  cleaning co " = "cleaning co".
Proof. reflexivity. Qed.

(** An empty term, as left by a trailing comma, matches every name. *)
Example es_tu_negocio_empty_term :
  _es_tu_negocio (Some "acme,") (mk_place (Some "XYZ") None None) = true.
Proof. reflexivity. Qed.

(** ** Distance calculator *)

Section Distancia.
Local Open Scope R_scope.

Lemma radians_minus (x y : R) : radians (x - y) = radians x - radians y.
Proof. unfold radians; ring. Qed.

(** The quantity under the square roots stays within [0, 1], whatever
    the four numbers are. *)
Lemma haversine_a_range (lat1 lng1 lat2 lng2 : R) :
  0 <= haversine_a lat1 lng1 lat2 lng2 <= 1.
Proof.
  unfold haversine_a.
  rewrite radians_minus.
  set (p := radians lat1); set (q := radians lat2).
  set (y := radians (lng2 - lng1) / 2).
  pose proof (cos_2a_sin ((q - p) / 2)) as H2.
  replace (2 * ((q - p) / 2)) with (q - p) in H2 by field.
  pose proof (cos_minus q p) as Hm.
  pose proof (cos_plus q p) as Hp.
  pose proof (COS_bound (q - p)) as [Hc1 Hc2].
  pose proof (COS_bound (q + p)) as [He1 He2].
  pose proof (sin2_cos2 y) as Hs; unfold Rsqr in Hs.
  assert (Hs0 : 0 <= sin y * sin y) by nra.
  assert (Hs1 : sin y * sin y <= 1) by nra.
  assert (Hcc : cos p * cos q = (cos (q - p) + cos (q + p)) / 2) by lra.
  assert (Ht : sin ((q - p) / 2) * sin ((q - p) / 2) = (1 - cos (q - p)) / 2)
    by lra.
  rewrite Ht.
  replace (cos p * cos q * sin y * sin y)
    with (cos p * cos q * (sin y * sin y)) by ring.
  rewrite Hcc.
  clear Hm Hp H2 Hs Hcc Ht.
  split; nra.
Qed.

Lemma math_sqrt_nonneg (x : R) : 0 <= x -> math_sqrt x = Some (sqrt x).
Proof.
  intros Hx; unfold math_sqrt.
  destruct (Rlt_dec x 0) as [Hlt | _]; [lra | reflexivity].
Qed.

(** Over the reals [math.sqrt] raises nowhere in the formula. *)
Lemma haversine_eq (lat1 lng1 lat2 lng2 : R) :
  haversine lat1 lng1 lat2 lng2 =
  Some (6371 * (2 * math_atan2
                      (sqrt (haversine_a lat1 lng1 lat2 lng2))
                      (sqrt (1 - haversine_a lat1 lng1 lat2 lng2)))).
Proof.
  unfold haversine.
  destruct (haversine_a_range lat1 lng1 lat2 lng2) as [H0 H1].
  rewrite !math_sqrt_nonneg by lra.
  reflexivity.
Qed.

Lemma haversine_a_sym (lat1 lng1 lat2 lng2 : R) :
  haversine_a lat1 lng1 lat2 lng2 = haversine_a lat2 lng2 lat1 lng1.
Proof.
  unfold haversine_a.
  replace (radians (lat1 - lat2) / 2) with (- (radians (lat2 - lat1) / 2))
    by (unfold radians; field).
  replace (radians (lng1 - lng2) / 2) with (- (radians (lng2 - lng1) / 2))
    by (unfold radians; field).
  rewrite !sin_neg. ring.
Qed.

Lemma haversine_a_same (lat1 lng1 : R) : haversine_a lat1 lng1 lat1 lng1 = 0.
Proof.
  unfold haversine_a, radians.
  replace ((lat1 - lat1) * (PI / 180) / 2) with 0 by field.
  replace ((lng1 - lng1) * (PI / 180) / 2) with 0 by field.
  rewrite sin_0. ring.
Qed.

Lemma math_atan2_0_1 : math_atan2 0 1 = 0.
Proof.
  unfold math_atan2.
  destruct (total_order_T 1 0) as [[Hlt | Heq] | Hgt]; try lra.
  replace (0 / 1) with 0 by field.
  apply atan_0.
Qed.

Lemma truthy_zero : truthy (Some 0) = false.
Proof.
  unfold truthy. destruct (Req_dec_T 0 0) as [_ | Hne]; [reflexivity | lra].
Qed.

(** Over the reals the calculator always returns a number. *)
Lemma _calcular_distancia_total (lat1 lng1 lat2 lng2 : option R) :
  exists d, _calcular_distancia lat1 lng1 lat2 lng2 = Some d.
Proof.
  unfold _calcular_distancia.
  destruct (negb (forallb truthy [lat1; lng1; lat2; lng2])); [eauto |].
  destruct lat1, lng1, lat2, lng2; eauto.
  rewrite haversine_eq; eauto.
Qed.

(** C9: the distance is symmetric in its two points, and the distance
    from a point to itself is 0; for all coordinates, null ones
    included. *)
Theorem calcular_distancia_symmetry_identity
  (lat1 lng1 lat2 lng2 : option R) :
  _calcular_distancia lat1 lng1 lat2 lng2
  = _calcular_distancia lat2 lng2 lat1 lng1
  /\ _calcular_distancia lat1 lng1 lat1 lng1 = Some 0.
Proof.
  split.
  - unfold _calcular_distancia.
    replace (forallb truthy [lat2; lng2; lat1; lng1])
      with (forallb truthy [lat1; lng1; lat2; lng2])
      by (simpl; destruct (truthy lat1), (truthy lng1),
                          (truthy lat2), (truthy lng2); reflexivity).
    destruct (negb (forallb truthy [lat1; lng1; lat2; lng2]));
      [reflexivity |].
    destruct lat1, lng1, lat2, lng2; try reflexivity.
    rewrite !haversine_eq, (haversine_a_sym r r0 r1 r2). reflexivity.
  - unfold _calcular_distancia.
    destruct (negb (forallb truthy [lat1; lng1; lat1; lng1]));
      [reflexivity |].
    destruct lat1, lng1; try reflexivity.
    rewrite haversine_eq, haversine_a_same.
    replace (1 - 0) with 1 by ring.
    rewrite sqrt_0, sqrt_1, math_atan2_0_1.
    f_equal; ring.
Qed.

(** C10: as soon as one of the four coordinates is the number 0 (a
    point on the equator or on the prime meridian), the result is 0,
    whatever the other three are. *)
Theorem calcular_distancia_zero_coordinate
  (lat1 lng1 lat2 lng2 : option R) :
  lat1 = Some 0 \/ lng1 = Some 0 \/ lat2 = Some 0 \/ lng2 = Some 0 ->
  _calcular_distancia lat1 lng1 lat2 lng2 = Some 0.
Proof.
  intros H. unfold _calcular_distancia.
  assert (Hf : forallb truthy [lat1; lng1; lat2; lng2] = false).
  { simpl. destruct H as [-> | [-> | [-> | ->]]]; rewrite truthy_zero;
      rewrite ?andb_false_r; reflexivity. }
  rewrite Hf. reflexivity.
Qed.

(** Quito, on the equator, seen from a base at 34 N, 118 W. *)
Lemma calcular_distancia_zero_coordinate_witness :
  _calcular_distancia (Some 34) (Some (-118)) (Some 0) (Some (-78)) = Some 0.
Proof.
  apply calcular_distancia_zero_coordinate.
  right; right; left; reflexivity.
Defined.

End Distancia.

(** ** Point analyzer *)

Section Analizador.

Variable b : bot.
Let env := business_keywords_env b.

(** On a success response, and only then, the analysis assembles the
    record and hands it to the database; it returns the record unless
    the handler of the write raises. *)
Lemma analizar_ciudad_eq (resp : respuesta) (o : db_outcome) (c : ciudad_t)
  (kw tr : string) (st : estado) :
  exists d,
    _calcular_distancia (base_lat b) (base_lng b) (c_lat c) (c_lng c) = Some d
    /\ analizar_ciudad b resp o c kw tr st =
       let r := construir_resultado b c kw tr (lugares resp) d in
       if respuesta_exitosa resp
       then (if rollback_raises o then None else Some r,
             snd (_guardar_resultado o r st))
       else (None, st).
Proof.
  destruct (_calcular_distancia_total (base_lat b) (base_lng b)
              (c_lat c) (c_lng c)) as [d Hd].
  exists d; split; [exact Hd |].
  unfold analizar_ciudad, respuesta_exitosa, lugares.
  destruct resp as [| code [data |]]; try reflexivity.
  - destruct (code =? 200)%Z; [| reflexivity].
    destruct (d_status data) as [s |]; [| reflexivity].
    simpl. destruct (String.eqb s "OK"); [| reflexivity].
    rewrite Hd. destruct o; reflexivity.
  - destruct (code =? 200)%Z; reflexivity.
Qed.

Lemma buscar_posicion_none (ps : list place) (idx : Z) :
  buscar_posicion env ps idx = None
  <-> (forall p, In p ps -> _es_tu_negocio env p = false).
Proof.
  revert idx; induction ps as [| p ps IH]; intros idx; simpl.
  - split; [intros _ q [] | reflexivity].
  - destruct (_es_tu_negocio env p) eqn:Hp.
    + split; [discriminate |].
      intros H. rewrite (H p (or_introl eq_refl)) in Hp. discriminate.
    + rewrite IH. split.
      * intros H q [<- | Hq]; auto.
      * intros H q Hq. apply H. now right.
Qed.

(** The position found is that of the first match, counted from
    [idx + 1]. *)
Lemma buscar_posicion_some (ps : list place) (idx k : Z) :
  buscar_posicion env ps idx = Some k
  <-> exists i p,
        k = (idx + Z.of_nat i + 1)%Z
        /\ nth_error ps i = Some p
        /\ _es_tu_negocio env p = true
        /\ (forall j q, (j < i)%nat -> nth_error ps j = Some q ->
                        _es_tu_negocio env q = false).
Proof.
  revert idx; induction ps as [| p ps IH]; intros idx; simpl.
  - split; [discriminate |].
    intros (i & q & _ & Hn & _). destruct i; discriminate.
  - destruct (_es_tu_negocio env p) eqn:Hp.
    + split.
      * intros [= <-]. exists 0%nat, p. simpl.
        repeat split; auto; try lia.
      * intros (i & q & -> & Hn & Hq & Hbefore).
        destruct i as [| i]; [f_equal; simpl; lia |].
        specialize (Hbefore 0%nat p (Nat.lt_0_succ i) eq_refl).
        congruence.
    + rewrite IH. split.
      * intros (i & q & -> & Hn & Hq & Hbefore).
        exists (S i), q. repeat split; auto; try lia.
        intros [| j] q' Hj; simpl; [congruence |].
        intros Hq'. apply (Hbefore j q'); [lia | exact Hq'].
      * intros (i & q & -> & Hn & Hq & Hbefore).
        destruct i as [| i]; [simpl in Hn; congruence |].
        exists i, q. repeat split; auto; try lia.
        intros j q' Hj Hq'. apply (Hbefore (S j) q'); [lia | exact Hq'].
Qed.

Lemma nth_error_firstn_some {A : Type} (n i : nat) (l : list A) (x : A) :
  nth_error (firstn n l) i = Some x <-> (i < n)%nat /\ nth_error l i = Some x.
Proof.
  rewrite nth_error_firstn.
  destruct (Nat.ltb_spec i n) as [Hlt | Hge]; split; intros Hx;
    try tauto; try discriminate.
  destruct Hx; lia.
Qed.

Lemma tu_posicion_some (places : list place) (k : Z) :
  tu_posicion env places = Some k
  <-> exists i p,
        k = (Z.of_nat i + 1)%Z
        /\ (i < 20)%nat
        /\ nth_error places i = Some p
        /\ _es_tu_negocio env p = true
        /\ (forall j q, (j < i)%nat -> nth_error places j = Some q ->
                        _es_tu_negocio env q = false).
Proof.
  unfold tu_posicion. rewrite buscar_posicion_some. split.
  - intros (i & p & -> & Hn & Hp & Hbefore).
    apply nth_error_firstn_some in Hn as [Hi Hn].
    exists i, p. repeat split; auto.
    intros j q Hj Hq. apply (Hbefore j q Hj).
    apply nth_error_firstn_some. split; [lia | exact Hq].
  - intros (i & p & -> & Hi & Hn & Hp & Hbefore).
    exists i, p. repeat split; auto.
    + apply nth_error_firstn_some. split; assumption.
    + intros j q Hj Hq. apply nth_error_firstn_some in Hq as [_ Hq].
      apply (Hbefore j q Hj Hq).
Qed.

(** C4: on a success response the analysis assembles a record in which
    [aparece] holds exactly when [posicion] is present, and [posicion],
    when present, is the 1-based index of the first of the first 20
    returned entities that the presence matcher accepts; it is absent
    exactly when none of these 20 is accepted.  The record is returned
    unless the handler of the write raises. *)
Theorem analizar_ciudad_found_rank (resp : respuesta) (o : db_outcome)
  (c : ciudad_t) (kw tr : string) (st : estado) :
  respuesta_exitosa resp = true ->
  exists r st',
    analizar_ciudad b resp o c kw tr st
    = (if rollback_raises o then None else Some r, st')
    /\ aparece r = is_some (posicion r)
    /\ (posicion r = None
        <-> forall p, In p (firstn 20 (lugares resp)) ->
                      _es_tu_negocio env p = false)
    /\ (forall k, posicion r = Some k
        <-> exists i p,
              k = (Z.of_nat i + 1)%Z
              /\ (i < 20)%nat
              /\ nth_error (lugares resp) i = Some p
              /\ _es_tu_negocio env p = true
              /\ (forall j q, (j < i)%nat ->
                              nth_error (lugares resp) j = Some q ->
                              _es_tu_negocio env q = false)).
Proof.
  intros Hok.
  destruct (analizar_ciudad_eq resp o c kw tr st) as (d & _ & Heq).
  rewrite Hok in Heq. cbv zeta in Heq.
  eexists; eexists; split; [exact Heq |].
  split; [reflexivity |]. split.
  - apply buscar_posicion_none.
  - intros k. apply tu_posicion_some.
Qed.

End Analizador.

Example tu_posicion_third :
  tu_posicion (business_keywords_env bot_acme)
              [p_sparkle; p_bright; p_acme] = Some 3%Z.
Proof. reflexivity. Qed.

(** The subject third in the list returned for Lennox. *)
Lemma analizar_ciudad_found_rank_witness :
  respuesta_exitosa (resp_ok [p_sparkle; p_bright; p_acme]) = true
  /\ exists r st',
       analizar_ciudad bot_acme (resp_ok [p_sparkle; p_bright; p_acme]) DbOk
         lennox "house cleaning" "tier_1_immediate" estado_inicial
       = (Some r, st')
       /\ aparece r = true /\ posicion r = Some 3%Z.
Proof.
  split; [reflexivity |].
  destruct (analizar_ciudad_found_rank bot_acme
              (resp_ok [p_sparkle; p_bright; p_acme]) DbOk lennox
              "house cleaning" "tier_1_immediate" estado_inicial eq_refl)
    as (r & st' & Heq & Hap & _ & Hpos).
  exists r, st'. split; [exact Heq |].
  assert (Hp : posicion r = Some 3%Z).
  { apply Hpos. exists 2%nat, p_acme.
    repeat split; try reflexivity; try lia.
    intros [| [| j]] q Hj Hq; try lia; injection Hq as <-; reflexivity. }
  rewrite Hap, Hp. split; reflexivity.
Defined.

(** ** Persistence *)

(** What one call of [_guardar_resultado] does: whether it returns,
    the insert it sends and the row it commits. *)
Lemma guardar_resultado_efectos (o : db_outcome) (r : resultado)
  (st : estado) :
  fst (_guardar_resultado o r st)
  = (if rollback_raises o then None else Some tt)
  /\ filter es_insert (sentencias (snd (_guardar_resultado o r st)))
     = filter es_insert (sentencias st)
       ++ (if envia_insert o then [Insert r] else [])
  /\ escrituras (snd (_guardar_resultado o r st))
     = (escrituras st + (if envia_insert o then 1 else 0))%nat
  /\ tabla (snd (_guardar_resultado o r st))
     = tabla st ++ (match o with DbOk => [r] | _ => [] end).
Proof.
  unfold escrituras.
  destruct o; simpl; rewrite ?filter_app, ?length_app, ?app_nil_r; simpl;
    rewrite ?app_nil_r; repeat split; lia.
Qed.

(** The effects of one analysis, for every answer of the search and
    every behaviour of the database: nothing is written on a response
    that is not a success; on a success response one insert is sent
    unless the cursor cannot be opened, the row is committed exactly
    when the write goes through, and the record is returned unless the
    handler raises. *)
Lemma analizar_ciudad_efectos (b : bot) (resp : respuesta)
  (o : db_outcome) (c : ciudad_t) (kw tr : string) (st : estado) :
  exists d,
    _calcular_distancia (base_lat b) (base_lng b) (c_lat c) (c_lng c) = Some d
    /\ let r := construir_resultado b c kw tr (lugares resp) d in
       let out := analizar_ciudad b resp o c kw tr st in
       let ok := respuesta_exitosa resp in
       fst out = (if ok && negb (rollback_raises o) then Some r else None)
       /\ filter es_insert (sentencias (snd out))
          = filter es_insert (sentencias st)
            ++ (if ok && envia_insert o then [Insert r] else [])
       /\ escrituras (snd out)
          = (escrituras st + (if ok && envia_insert o then 1 else 0))%nat
       /\ tabla (snd out)
          = tabla st ++ (match ok, o with true, DbOk => [r] | _, _ => [] end).
Proof.
  destruct (analizar_ciudad_eq b resp o c kw tr st) as (d & Hd & Heq).
  exists d; split; [exact Hd |].
  cbv zeta in *. rewrite Heq.
  destruct (respuesta_exitosa resp); cbn [fst snd andb].
  - destruct (guardar_resultado_efectos o
                (construir_resultado b c kw tr (lugares resp) d) st)
      as (_ & Hf & Hn & Ht).
    destruct (rollback_raises o); simpl; repeat split; assumption.
  - rewrite !app_nil_r, Nat.add_0_r. repeat split; reflexivity.
Qed.

(** C7, evaluated on a success response when [cur.execute] raises and
    [rollback] raises in its turn: the record has been assembled (the
    subject is second) and its insert sent, yet the analysis returns
    nothing, so the failed write costs the result. *)
Theorem analizar_ciudad_lost_when_rollback_raises :
  respuesta_exitosa (resp_ok [p_sparkle; p_acme]) = true
  /\ exists r st',
       analizar_ciudad bot_acme (resp_ok [p_sparkle; p_acme])
         DbExecuteFailsRollbackRaises lennox
         "house cleaning" "tier_1_immediate" estado_inicial = (None, st')
       /\ sentencias st' = [Insert r]
       /\ posicion r = Some 2%Z.
Proof.
  split; [reflexivity |].
  destruct (analizar_ciudad_eq bot_acme (resp_ok [p_sparkle; p_acme])
              DbExecuteFailsRollbackRaises lennox
              "house cleaning" "tier_1_immediate" estado_inicial)
    as (d & _ & Heq).
  eexists; eexists. split; [exact Heq |]. split; reflexivity.
Qed.

(** The three kinds of response that are not a success. *)
Example analizar_ciudad_request_exception (b : bot) (o : db_outcome)
  (c : ciudad_t) (kw tr : string) (st : estado) :
  analizar_ciudad b RequestException o c kw tr st = (None, st).
Proof. reflexivity. Qed.

Example analizar_ciudad_forbidden (b : bot) (o : db_outcome)
  (c : ciudad_t) (kw tr : string) (st : estado) (body : option datos) :
  analizar_ciudad b (HttpResponse 403 body) o c kw tr st = (None, st).
Proof. reflexivity. Qed.

Example analizar_ciudad_zero_results (b : bot) (o : db_outcome)
  (c : ciudad_t) (kw tr : string) (st : estado) :
  analizar_ciudad b
    (HttpResponse 200 (Some (mk_datos (Some "ZERO_RESULTS") (Some []))))
    o c kw tr st = (None, st).
Proof. reflexivity. Qed.

(** ** Competitor statistics *)

(** On a success response [total_competidores] is the number of
    returned entities, the subject's own entries included. *)
Lemma total_competidores_len (b : bot) (resp : respuesta) (o : db_outcome)
  (c : ciudad_t) (kw tr : string) (st : estado) :
  respuesta_exitosa resp = true ->
  exists r st',
    analizar_ciudad b resp o c kw tr st
    = (if rollback_raises o then None else Some r, st')
    /\ total_competidores r = len (lugares resp).
Proof.
  intros Hok.
  destruct (analizar_ciudad_eq b resp o c kw tr st) as (d & _ & Heq).
  rewrite Hok in Heq. cbv zeta in Heq.
  eexists; eexists; split; [exact Heq | reflexivity].
Qed.

(** C1, evaluated on the subject followed by one competitor: the record
    reports 2 in [total_competidores], while the competitor set has
    size 1. *)
Theorem total_competidores_counts_subject :
  exists r st',
    analizar_ciudad bot_acme (resp_ok [p_acme; p_sparkle]) DbOk lennox
      "house cleaning" "tier_1_immediate" estado_inicial = (Some r, st')
    /\ total_competidores r = 2%Z
    /\ len (competidores (business_keywords_env bot_acme)
              (lugares (resp_ok [p_acme; p_sparkle]))) = 1%Z.
Proof.
  destruct (total_competidores_len bot_acme (resp_ok [p_acme; p_sparkle])
              DbOk lennox "house cleaning" "tier_1_immediate"
              estado_inicial eq_refl) as (r & st' & Heq & Hlen).
  exists r, st'. split; [exact Heq |]. split; [exact Hlen | reflexivity].
Qed.

(** Rounding moves a number by at most one half. *)
Lemma round_half_even_Q_close (y : Q) :
  Qabs (inject_Z (round_half_even_Q y) - y) <= 1 # 2.
Proof.
  unfold round_half_even_Q.
  pose proof (Qfloor_le y) as Hlo.
  pose proof (Qlt_floor y) as Hhi.
  rewrite inject_Z_plus in Hhi. change (inject_Z 1) with 1 in Hhi.
  apply Qabs_Qle_condition.
  destruct (Qcompare_spec (y - inject_Z (Qfloor y)) (1 # 2)) as [He | Hl | Hg].
  - destruct (Z.even (Qfloor y)); rewrite ?inject_Z_plus;
      change (inject_Z 1) with 1; split; lra.
  - split; lra.
  - rewrite inject_Z_plus. change (inject_Z 1) with 1. split; lra.
Qed.

(** [round(q, 2)] is within half a hundredth of [q]. *)
Lemma round2_Q_close (q : Q) : Qabs (round2_Q q - q) <= 1 # 200.
Proof.
  unfold round2_Q.
  pose proof (round_half_even_Q_close (q * 100)) as H.
  apply Qabs_Qle_condition in H. apply Qabs_Qle_condition.
  rewrite (Qmake_Qdiv (round_half_even_Q (q * 100)) 100).
  set (n := inject_Z (round_half_even_Q (q * 100))) in *.
  change (inject_Z (Z.pos 100)) with 100.
  clearbody n. unfold Qdiv. change (/ 100) with (1 # 100).
  split; lra.
Qed.

(** The integer part does not depend on the fraction chosen. *)
Lemma Qtruncate_comp (p q : Q) : p == q -> Qtruncate p = Qtruncate q.
Proof.
  unfold Qeq, Qtruncate. destruct p as [n1 d1], q as [n2 d2]; simpl.
  intros H.
  rewrite <- (Z.quot_mul_cancel_r n1 (Z.pos d1) (Z.pos d2)) by lia.
  rewrite H.
  rewrite (Z.mul_comm (Z.pos d1) (Z.pos d2)).
  apply Z.quot_mul_cancel_r; lia.
Qed.

Lemma Qtruncate_div (s : Z) (p : positive) :
  Qtruncate (inject_Z s / inject_Z (Z.pos p)) = Z.quot s (Z.pos p).
Proof.
  unfold Qtruncate, Qdiv, Qinv, Qmult, inject_Z; simpl.
  rewrite Z.mul_1_r. reflexivity.
Qed.

Lemma fold_left_Qplus_comp (l : list Q) (a a' : Q) :
  a == a' -> fold_left Qplus l a == fold_left Qplus l a'.
Proof.
  revert a a'; induction l as [| x l IH]; intros a a' H; simpl.
  - exact H.
  - apply IH. rewrite H. reflexivity.
Qed.

Lemma sum_Q_inject_Z (l : list Z) :
  sum_Q (map inject_Z l) == inject_Z (sum_Z l).
Proof.
  unfold sum_Q, sum_Z. change 0%Q with (inject_Z 0).
  generalize 0%Z as z.
  induction l as [| x l IH]; intros z; simpl.
  - reflexivity.
  - rewrite <- IH. apply fold_left_Qplus_comp.
    rewrite inject_Z_plus. reflexivity.
Qed.

Lemma len_map {A B : Type} (f : A -> B) (l : list A) : len (map f l) = len l.
Proof. unfold len. rewrite length_map. reflexivity. Qed.

Lemma calc_rating_promedio_media (comp : list place) :
  calc_rating_promedio comp = media (map get_rating comp).
Proof.
  destruct comp as [| p comp]; [reflexivity |].
  unfold calc_rating_promedio, media.
  rewrite len_map. reflexivity.
Qed.

Lemma calc_reviews_promedio_media (comp : list place) :
  calc_reviews_promedio comp
  = Qtruncate
      (media (map (fun p => inject_Z (get_user_ratings_total p)) comp)).
Proof.
  destruct comp as [| p comp]; [reflexivity |].
  unfold calc_reviews_promedio, media.
  set (l := p :: comp).
  change (map (fun p0 => inject_Z (get_user_ratings_total p0)) l)
    with (map (fun p0 => inject_Z (get_user_ratings_total p0)) (p :: comp)).
  cbn [map]. fold l.
  change (inject_Z (get_user_ratings_total p)
          :: map (fun p0 => inject_Z (get_user_ratings_total p0)) comp)
    with (map (fun p0 => inject_Z (get_user_ratings_total p0)) l).
  rewrite len_map, <- (map_map get_user_ratings_total inject_Z).
  rewrite (Qtruncate_comp _
             (inject_Z (sum_Z (map get_user_ratings_total l))
              / inject_Z (len l))).
  - unfold len, l. simpl List.length. rewrite Nat2Z.inj_succ.
    rewrite <- Zpos_P_of_succ_nat. symmetry. apply Qtruncate_div.
  - rewrite sum_Q_inject_Z. reflexivity.
Qed.

(** C6, as stated, fails on three competitors rated 4.0, 4.5, 4.5 with
    50, 151 and 100 reviews: neither reported average is the arithmetic
    mean (13/3 and 301/3). *)
Lemma competitor_averages_not_the_mean :
  let resp := resp_ok [p_sparkle; p_tidy; p_mops] in
  let comp := competidores (business_keywords_env bot_acme) (lugares resp) in
  exists r st',
    analizar_ciudad bot_acme resp DbOk lennox
      "house cleaning" "tier_1_immediate" estado_inicial = (Some r, st')
    /\ ~ rating_promedio r == media (map get_rating comp)
    /\ ~ inject_Z (reviews_promedio r)
         == media (map (fun p => inject_Z (get_user_ratings_total p)) comp).
Proof.
  intros resp comp.
  destruct (analizar_ciudad_eq bot_acme resp DbOk lennox
              "house cleaning" "tier_1_immediate" estado_inicial)
    as (d & _ & Heq).
  change (respuesta_exitosa resp) with true in Heq. cbv zeta in Heq.
  eexists; eexists; split; [exact Heq |].
  split; intros H; vm_compute in H; discriminate H.
Qed.

(** C6, amended: on a success response the record's [rating_promedio]
    is the arithmetic mean of the competitors' ratings rounded to two
    decimals: a multiple of 0.01 within 0.005 of the mean (when the
    mean is halfway between two such multiples, either may be stored);
    and [reviews_promedio] is the integer part of the arithmetic mean of
    their review counts; an absent rating or count enters the mean as
    0; with no competitor both are 0.  The record is returned unless
    the handler of the write raises. *)
Theorem analizar_ciudad_competitor_averages (b : bot) (resp : respuesta)
  (o : db_outcome) (c : ciudad_t) (kw tr : string) (st : estado) :
  respuesta_exitosa resp = true ->
  exists r st',
    analizar_ciudad b resp o c kw tr st
    = (if rollback_raises o then None else Some r, st')
    /\ let comp := competidores (business_keywords_env b) (lugares resp) in
       let m_rating := media (map get_rating comp) in
       let m_reviews :=
         media (map (fun p => inject_Z (get_user_ratings_total p)) comp) in
       (exists n, rating_promedio r = n # 100)
       /\ Qabs (rating_promedio r - m_rating) <= 1 # 200
       /\ reviews_promedio r = Qtruncate m_reviews
       /\ (comp = [] -> rating_promedio r == 0 /\ reviews_promedio r = 0%Z).
Proof.
  intros Hok.
  destruct (analizar_ciudad_eq b resp o c kw tr st) as (d & _ & Heq).
  rewrite Hok in Heq. cbv zeta in Heq.
  eexists; eexists; split; [exact Heq |].
  cbv zeta. cbn [rating_promedio reviews_promedio construir_resultado].
  rewrite calc_rating_promedio_media, calc_reviews_promedio_media.
  split; [eexists; reflexivity |]. split; [apply round2_Q_close |].
  split; [reflexivity |].
  intros ->. split; reflexivity.
Qed.

(** Two competitors rated 4.0 and 5.0 with 50 and 150 reviews: the
    averages are 4.5 and 100, the only values the statement allows;
    the commit fails and the record is returned all the same. *)
Lemma analizar_ciudad_competitor_averages_witness :
  respuesta_exitosa (resp_ok [p_sparkle; p_bright]) = true
  /\ exists r st',
       analizar_ciudad bot_acme (resp_ok [p_sparkle; p_bright]) DbCommitFails
         lennox "maid service" "tier_1_immediate" estado_inicial
       = (Some r, st')
       /\ rating_promedio r == 4.5 /\ reviews_promedio r = 100%Z.
Proof.
  split; [reflexivity |].
  destruct (analizar_ciudad_competitor_averages bot_acme
              (resp_ok [p_sparkle; p_bright]) DbCommitFails lennox
              "maid service" "tier_1_immediate" estado_inicial eq_refl)
    as (r & st' & Heq & [n Hn] & Hclose & Hv & _).
  exists r, st'. split; [exact Heq |].
  split; [| rewrite Hv; reflexivity].
  rewrite Hn in *. apply Qabs_Qle_condition in Hclose.
  assert (Em : media (map get_rating
                 (competidores (business_keywords_env bot_acme)
                    (lugares (resp_ok [p_sparkle; p_bright])))) = 900 # 200)
    by (vm_compute; reflexivity).
  rewrite Em in Hclose. destruct Hclose as [Hlo Hhi].
  unfold Qle, Qminus, Qplus, Qopp in Hlo, Hhi. simpl in Hlo, Hhi.
  assert (E : n = 450%Z) by lia.
  rewrite E. reflexivity.
Defined.

(** Ratings 4.0, 4.5, 4.5 and 4.3 have mean 4.325: both 4.32 and 4.33
    are within 0.005 of it, and the statement leaves the choice open. *)
Example competitor_averages_tie :
  let m := media (map get_rating [p_sparkle; p_tidy; p_mops; p_shine]) in
  m == 4.325 /\ Qabs (4.32 - m) <= 1 # 200 /\ Qabs (4.33 - m) <= 1 # 200.
Proof.
  cbv zeta. split; [reflexivity |]. split; vm_compute; discriminate.
Qed.

(** ** Difficulty label *)

(** C8: the label is EASY exactly below 100 reviews, MEDIUM exactly
    from 100 to 199, HARD exactly from 200 on; 99 is EASY, 100 and 199
    are MEDIUM, 200 is HARD. *)
Theorem dificultad_de_thresholds (reviews : Z) :
  (dificultad_de reviews = EASY <-> (reviews < 100)%Z)
  /\ (dificultad_de reviews = MEDIUM <-> (100 <= reviews < 200)%Z)
  /\ (dificultad_de reviews = HARD <-> (200 <= reviews)%Z)
  /\ dificultad_de 99 = EASY
  /\ dificultad_de 100 = MEDIUM
  /\ dificultad_de 199 = MEDIUM
  /\ dificultad_de 200 = HARD.
Proof.
  unfold dificultad_de.
  destruct (Z.ltb_spec reviews 100) as [H1 | H1];
    [| destruct (Z.ltb_spec reviews 200) as [H2 | H2]];
    repeat split; intros; try reflexivity; try discriminate; try lia.
Qed.

(** ** Dominance aggregator *)

Section Dominio.
Local Open Scope Q_scope.

Lemma Qlt_bool_true (x y : Q) : Qlt_bool x y = true -> x <= y.
Proof.
  unfold Qlt_bool. destruct (Qle_bool y x) eqn:E; [discriminate |].
  intros _. apply Qlt_le_weak, Qnot_le_lt.
  intros H. apply Qle_bool_iff in H. congruence.
Qed.

Lemma Qlt_bool_false (x y : Q) : Qlt_bool x y = false -> y <= x.
Proof.
  unfold Qlt_bool. destruct (Qle_bool y x) eqn:E; [| discriminate].
  intros _. now apply Qle_bool_iff.
Qed.

(** [max_from m l] is an element of [m :: l] above all of them. *)
Lemma max_from_spec (l : list Q) (m : Q) :
  In (max_from m l) (m :: l)
  /\ (forall x, In x (m :: l) -> x <= max_from m l).
Proof.
  revert m; induction l as [| y l IH]; intros m; simpl.
  - split; [now left |]. intros x [<- | []]. apply Qle_refl.
  - destruct (Qlt_bool m y) eqn:E.
    + destruct (IH y) as [Hin Hle]. split.
      * right. exact Hin.
      * intros x [<- | Hx]; [| now apply Hle].
        apply Qle_trans with y; [now apply Qlt_bool_true |].
        apply Hle. now left.
    + destruct (IH m) as [Hin Hle]. split.
      * destruct Hin as [Hm | Hin]; [now left | now right; right].
      * intros x [<- | [<- | Hx]].
        -- apply Hle. now left.
        -- apply Qle_trans with m; [now apply Qlt_bool_false |].
           apply Hle. now left.
        -- apply Hle. now right.
Qed.

Lemma min_from_spec (l : list Q) (m : Q) :
  In (min_from m l) (m :: l)
  /\ (forall x, In x (m :: l) -> min_from m l <= x).
Proof.
  revert m; induction l as [| y l IH]; intros m; simpl.
  - split; [now left |]. intros x [<- | []]. apply Qle_refl.
  - destruct (Qlt_bool y m) eqn:E.
    + destruct (IH y) as [Hin Hle]. split.
      * right. exact Hin.
      * intros x [<- | Hx]; [| now apply Hle].
        apply Qle_trans with y; [| now apply Qlt_bool_true].
        apply Hle. now left.
    + destruct (IH m) as [Hin Hle]. split.
      * destruct Hin as [Hm | Hin]; [now left | now right; right].
      * intros x [<- | [<- | Hx]].
        -- apply Hle. now left.
        -- apply Qle_trans with m; [| now apply Qlt_bool_false].
           apply Hle. now left.
        -- apply Hle. now right.
Qed.

Lemma mapM_total {A B : Type} (f : A -> option B) (l : list A) :
  (forall a, In a l -> exists v, f a = Some v) ->
  exists bs, mapM f l = Some bs /\ map f l = map Some bs.
Proof.
  induction l as [| a l IH]; intros H; simpl.
  - exists []. split; reflexivity.
  - destruct (H a (or_introl eq_refl)) as [v Hv].
    destruct IH as (bs & Hbs & Hmap); [intros x Hx; apply H; now right |].
    exists (v :: bs). rewrite Hv, Hbs, Hmap. split; reflexivity.
Qed.

Lemma con_posicion_filter (f : resultado -> bool) (l : list resultado) :
  con_posicion l -> con_posicion (filter f l).
Proof. intros H r Hr. apply filter_In in Hr as [Hr _]. now apply H. Qed.

Lemma con_posicion_apariciones (rs : list resultado) :
  Forall bien_formado rs -> con_posicion (filter aparece rs).
Proof.
  intros Hwf r Hr. apply filter_In in Hr as [Hr Hap].
  rewrite Forall_forall in Hwf. specialize (Hwf r Hr).
  unfold bien_formado in Hwf. rewrite Hap in Hwf.
  destruct (posicion r) as [k |]; [now exists k | discriminate].
Qed.

Lemma sum_posiciones_total (l : list resultado) :
  con_posicion l ->
  exists ps, map posicion l = map Some ps
             /\ sum_posiciones l = Some (sum_Z ps).
Proof.
  intros H. destruct (mapM_total posicion l H) as (ps & Hm & Hmap).
  exists ps. split; [exact Hmap |].
  unfold sum_posiciones. rewrite Hm. reflexivity.
Qed.

Lemma In_insertar_nombre (x y : string) (l : list string) :
  In y (insertar_nombre x l) <-> y = x \/ In y l.
Proof.
  induction l as [| z l IH]; simpl.
  - intuition.
  - destruct (String.ltb z x); simpl; rewrite ?IH; intuition.
Qed.

Lemma In_sorted_set (x : string) (l : list string) :
  In x (sorted_set l) <-> In x l.
Proof.
  unfold sorted_set. rewrite <- (nodup_In string_dec l x).
  induction (nodup string_dec l) as [| y n IH]; simpl; [tauto |].
  rewrite In_insertar_nombre, IH. intuition.
Qed.

Lemma len_pos {A : Type} (x : A) (l : list A) : In x l -> (0 < len l)%Z.
Proof. unfold len. destruct l; simpl; [tauto | lia]. Qed.

(** The per-tier part of the report raises nothing on present results
    that carry their positions. *)
Lemma zona_de_total (rs ap : list resultado) (t : string) :
  con_posicion ap -> exists z, zona_de rs ap t = Some z.
Proof.
  intros Hap. unfold zona_de.
  destruct (0 <? len (filter (fun r => String.eqb (tier r) t) rs))%Z;
    [| eauto].
  set (ta := filter (fun r => String.eqb (tier r) t) ap).
  match goal with
  | |- context [ mapM ?f ?l ] => destruct (mapM_total f l) as (cs & Hcs & _)
  end.
  - intros c Hc. apply In_sorted_set, in_map_iff in Hc as (r & <- & Hr).
    set (cr := filter (fun r0 => String.eqb (ciudad r0) (ciudad r)) ta).
    destruct (sum_posiciones_total cr) as (ps & _ & Hs).
    { unfold cr, ta. now apply con_posicion_filter, con_posicion_filter. }
    rewrite Hs. simpl. unfold truediv.
    assert (Hlen : (0 < len cr)%Z).
    { apply (len_pos r). apply filter_In. split; [exact Hr |].
      apply String.eqb_refl. }
    destruct (Z.eqb_spec (len cr) 0); [lia |]. simpl. eauto.
  - rewrite Hcs. simpl. eauto.
Qed.

(** On well-formed results the aggregator raises nothing. *)
Lemma generar_mapa_dominio_total (rs : list resultado) :
  Forall bien_formado rs -> exists m, _generar_mapa_dominio rs = Some m.
Proof.
  intros Hwf. unfold _generar_mapa_dominio.
  pose proof (con_posicion_apariciones rs Hwf) as Hcp.
  destruct (sum_posiciones_total _ Hcp) as (ps & _ & Hs).
  destruct (mapM_total (zona_de rs (filter aparece rs)) tiers)
    as (zs & Hzs & _).
  { intros t _. now apply zona_de_total. }
  destruct (filter aparece rs) as [| r0 rest] eqn:Hp; [eauto |].
  cbn [py_max py_min map bind].
  rewrite Hs, Hzs. cbn [bind]. unfold truediv.
  destruct (Z.eqb_spec (len (r0 :: rest)) 0) as [H0 | _].
  - unfold len in H0. simpl in H0. lia.
  - simpl. eauto.
Qed.

(** C5: for well-formed results, when some result is present the
    report carries as dominance radius a present distance that no
    present distance exceeds, as minimum a present distance below all
    present distances, and as average position the arithmetic mean of
    the present rank positions; when none is present the report is the
    no-dominance state, and no exception is raised. *)
Theorem generar_mapa_dominio_extremes (rs : list resultado) :
  Forall bien_formado rs ->
  let present := filter aparece rs in
  (present = [] -> _generar_mapa_dominio rs = Some SinApariciones)
  /\ (present <> [] ->
      exists dmax dmin avg zs ps,
        _generar_mapa_dominio rs = Some (Dominio dmax dmin avg zs)
        /\ In dmax (map distancia_km present)
        /\ (forall r, In r present -> distancia_km r <= dmax)
        /\ In dmin (map distancia_km present)
        /\ (forall r, In r present -> dmin <= distancia_km r)
        /\ map posicion present = map Some ps
        /\ avg == media (map inject_Z ps)).
Proof.
  intros Hwf present. unfold _generar_mapa_dominio. fold present.
  split; [intros ->; reflexivity |].
  intros Hne.
  pose proof (con_posicion_apariciones rs Hwf) as Hcp. fold present in Hcp.
  destruct (sum_posiciones_total present Hcp) as (ps & Hps & Hs).
  destruct (mapM_total (zona_de rs present) tiers) as (zs & Hzs & _).
  { intros t _. now apply zona_de_total. }
  destruct present as [| r0 rest] eqn:Hp; [congruence |].
  rewrite <- Hp in *. 
  assert (Hmax : py_max (map distancia_km present)
                 = Some (max_from (distancia_km r0) (map distancia_km rest)))
    by (rewrite Hp; reflexivity).
  assert (Hmin : py_min (map distancia_km present)
                 = Some (min_from (distancia_km r0) (map distancia_km rest)))
    by (rewrite Hp; reflexivity).
  assert (Hlen : (len present =? 0)%Z = false).
  { apply Z.eqb_neq. pose proof (len_pos r0 present). rewrite Hp in *.
    simpl in H. intuition lia. }
  rewrite Hmax, Hmin, Hs, Hzs. unfold truediv. rewrite Hlen. simpl.
  destruct (max_from_spec (map distancia_km rest) (distancia_km r0))
    as [Hin1 Hle1].
  destruct (min_from_spec (map distancia_km rest) (distancia_km r0))
    as [Hin2 Hle2].
  change (distancia_km r0 :: map distancia_km rest)
    with (map distancia_km (r0 :: rest)) in *.
  rewrite <- Hp in *.
  eexists; eexists; eexists; eexists; exists ps.
  split; [reflexivity |].
  split; [exact Hin1 |].
  split; [intros r Hr; apply Hle1; now apply in_map |].
  split; [exact Hin2 |].
  split; [intros r Hr; apply Hle2; now apply in_map |].
  split; [exact Hps |].
  assert (Hl : len present = len (map inject_Z ps)).
  { unfold len. rewrite length_map, <- (length_map Some ps), <- Hps,
      length_map. reflexivity. }
  unfold media. destruct ps as [| k ps'].
  - rewrite Hp in Hps. discriminate.
  - cbn [map]. change (inject_Z k :: map inject_Z ps')
      with (map inject_Z (k :: ps')).
    rewrite sum_Q_inject_Z, Hl. reflexivity.
Qed.

End Dominio.

(** Presence at 2, 4 and 9 km. *)
Lemma generar_mapa_dominio_extremes_witness :
  Forall bien_formado rs_presencia
  /\ exists avg zs,
       _generar_mapa_dominio rs_presencia = Some (Dominio 9.0 2.0 avg zs)
       /\ avg == 4.
Proof.
  assert (Hwf : Forall bien_formado rs_presencia)
    by (repeat constructor).
  split; [exact Hwf |].
  destruct (generar_mapa_dominio_extremes rs_presencia Hwf) as [_ H].
  destruct H as (dmax & dmin & avg & zs & ps & Heq & _);
    [discriminate |].
  vm_compute in Heq. injection Heq as <- <- <- <-.
  eexists; eexists; split; reflexivity.
Defined.

(** ** Opportunity ranker *)

Section Ranker.

(** *** The dictionary of opportunities *)

Lemma dict_set_fresh (d : dict) (k : string) (v : oportunidad) :
  ~ In k (map fst d) -> dict_set d k v = d ++ [(k, v)].
Proof.
  induction d as [| [k' v'] d IH]; simpl; intros Hk; [reflexivity |].
  destruct (String.eqb_spec k' k) as [-> | Hne]; [tauto |].
  rewrite IH by tauto. reflexivity.
Qed.

(** Over distinct fresh names the loop appends one entry per name. *)
Lemma construir_oportunidades_mapM (na : list resultado) (cs : list string) :
  forall d,
    NoDup cs ->
    (forall c, In c cs -> ~ In c (map fst d)) ->
    construir_oportunidades na cs d
    = (l <- mapM (entrada na) cs ;; Some (d ++ l)).
Proof.
  induction cs as [| c cs IH]; intros d Hnd Hfresh; simpl.
  - rewrite app_nil_r. reflexivity.
  - unfold entrada at 1.
    destruct (filter (fun r => String.eqb (ciudad r) c) na) as [| r0 rest];
      [reflexivity |].
    inversion Hnd as [| ? ? Hc Hnd']; subst.
    rewrite dict_set_fresh by (apply Hfresh; now left).
    rewrite IH; [| exact Hnd' |].
    + simpl. destruct (mapM (entrada na) cs) as [l |]; simpl;
        [rewrite <- app_assoc |]; reflexivity.
    + intros c' Hc'. rewrite map_app, in_app_iff. simpl.
      intros [Hin | [<- | []]]; [| exact (Hc Hc')].
      apply (Hfresh c'); [now right | exact Hin].
Qed.

(** The entry of a name is taken from the first result bearing it. *)
Lemma entrada_first (na : list resultado) (c : string) (e : string * oportunidad) :
  entrada na c = Some e ->
  exists l1 r l2,
    na = l1 ++ r :: l2
    /\ ciudad r = c
    /\ (forall r', In r' l1 -> ciudad r' <> c)
    /\ e = (c, oportunidad_de r).
Proof.
  unfold entrada. induction na as [| r0 na IH]; simpl; [discriminate |].
  destruct (String.eqb_spec (ciudad r0) c) as [Heq | Hne].
  - intros [= <-]. exists [], r0, na. simpl. intuition.
  - intros H. destruct (IH H) as (l1 & r & l2 & -> & Hr & Hl1 & ->).
    exists (r0 :: l1), r, l2. simpl. repeat split; auto.
    intros r' [<- | Hr']; auto.
Qed.

Lemma entrada_total (na : list resultado) (c : string) :
  In c (map ciudad na) -> exists e, entrada na c = Some e.
Proof.
  intros Hc. apply in_map_iff in Hc as (r & Hr & Hin).
  unfold entrada.
  destruct (filter (fun r0 => String.eqb (ciudad r0) c) na) eqn:E; [| eauto].
  assert (Hf : In r (filter (fun r0 => String.eqb (ciudad r0) c) na)).
  { apply filter_In. split; [exact Hin |]. now apply String.eqb_eq. }
  rewrite E in Hf. destruct Hf.
Qed.

Lemma mapM_entrada_fst (na : list resultado) (cs : list string) :
  forall l, mapM (entrada na) cs = Some l -> map fst l = cs.
Proof.
  induction cs as [| c cs IH]; simpl; intros l.
  - intros [= <-]. reflexivity.
  - destruct (entrada na c) as [e |] eqn:He; simpl; [| discriminate].
    destruct (mapM (entrada na) cs) as [l' |]; simpl; [| discriminate].
    intros [= <-]. simpl. rewrite (IH l' eq_refl).
    apply entrada_first in He as (l1 & r & l2 & _ & _ & _ & ->). reflexivity.
Qed.

Lemma mapM_In {A B : Type} (f : A -> option B) (l : list A) :
  forall bs b, mapM f l = Some bs -> In b bs ->
               exists a, In a l /\ f a = Some b.
Proof.
  induction l as [| a l IH]; simpl; intros bs b.
  - intros [= <-] [].
  - destruct (f a) as [v |] eqn:Hv; simpl; [| discriminate].
    destruct (mapM f l) as [vs |]; simpl; [| discriminate].
    intros [= <-] [<- | Hb].
    + exists a. split; [now left | exact Hv].
    + destruct (IH vs b eq_refl Hb) as (a' & Ha' & Hfa').
      exists a'. split; [now right | exact Hfa'].
Qed.

Lemma mapM_Permutation {A B : Type} (f : A -> option B) (l l' : list A) :
  Permutation l l' ->
  forall bs, mapM f l = Some bs ->
             exists bs', mapM f l' = Some bs' /\ Permutation bs bs'.
Proof.
  induction 1 as [| x l l' _ IH | x y l | l l' l'' _ IH1 _ IH2];
    simpl; intros bs.
  - intros [= <-]. exists []. split; [reflexivity | constructor].
  - destruct (f x) as [v |]; simpl; [| discriminate].
    destruct (mapM f l) as [vs |]; simpl; [| discriminate].
    intros [= <-]. destruct (IH vs eq_refl) as (vs' & -> & Hp).
    exists (v :: vs'). split; [reflexivity | now constructor].
  - destruct (f y) as [v |]; simpl; [| discriminate].
    destruct (f x) as [w |]; simpl; [| discriminate].
    destruct (mapM f l) as [vs |]; simpl; [| discriminate].
    intros [= <-]. exists (w :: v :: vs). split; [reflexivity | constructor].
  - intros Hbs. destruct (IH1 bs Hbs) as (bs' & Hbs' & Hp1).
    destruct (IH2 bs' Hbs') as (bs'' & Hbs'' & Hp2).
    exists bs''. split; [exact Hbs'' | now transitivity bs'].
Qed.

Lemma mapM_map {A B C : Type} (f : A -> option B) (h : C -> A) (g : C -> B)
  (l : list C) :
  (forall x, In x l -> f (h x) = Some (g x)) ->
  mapM f (map h l) = Some (map g l).
Proof.
  induction l as [| x l IH]; simpl; intros H; [reflexivity |].
  rewrite (H x (or_introl eq_refl)), IH by (intros y Hy; apply H; now right).
  reflexivity.
Qed.

(** *** First-occurrence order and first-wins deduplication *)

Lemma In_primera_aparicion (l : list string) (x : string) :
  In x (primera_aparicion l) <-> In x l.
Proof.
  induction l as [| y l IH]; simpl; [tauto |].
  rewrite filter_In, IH.
  destruct (String.eqb_spec x y) as [-> | Hne]; simpl.
  - intuition.
  - split; [intuition | intros [-> | Hx]; [tauto | right; split; auto]].
Qed.

Lemma NoDup_primera_aparicion (l : list string) :
  NoDup (primera_aparicion l).
Proof.
  induction l as [| y l IH]; simpl; constructor.
  - rewrite filter_In, String.eqb_refl. simpl. intros [_ H]; discriminate.
  - now apply NoDup_filter.
Qed.

Lemma orden_de_set_primera_aparicion : orden_de_set primera_aparicion.
Proof.
  intros l. split; [apply NoDup_primera_aparicion |].
  intros x. apply In_primera_aparicion.
Qed.

Lemma orden_de_set_orden_inverso : orden_de_set orden_inverso.
Proof.
  intros l. unfold orden_inverso. split.
  - apply NoDup_rev, NoDup_primera_aparicion.
  - intros x. rewrite <- in_rev. apply In_primera_aparicion.
Qed.

Lemma map_ciudad_filter (x : string) (l : list resultado) :
  map ciudad (filter (fun r => negb (String.eqb (ciudad r) x)) l)
  = filter (fun y => negb (String.eqb y x)) (map ciudad l).
Proof.
  induction l as [| r l IH]; simpl; [reflexivity |].
  destruct (String.eqb (ciudad r) x); simpl; rewrite IH; reflexivity.
Qed.

Lemma map_ciudad_deduplicar (na : list resultado) :
  map ciudad (deduplicar na) = primera_aparicion (map ciudad na).
Proof.
  induction na as [| r na IH]; simpl; [reflexivity |].
  rewrite map_ciudad_filter, IH. reflexivity.
Qed.

Lemma entrada_deduplicar (na : list resultado) (r : resultado) :
  In r (deduplicar na) -> entrada na (ciudad r) = Some (entrada_de r).
Proof.
  unfold entrada, entrada_de.
  induction na as [| r0 na IH]; simpl; [tauto |].
  intros [<- | Hr].
  - rewrite String.eqb_refl. reflexivity.
  - apply filter_In in Hr as [Hr Hne].
    rewrite String.eqb_sym.
    destruct (String.eqb (ciudad r) (ciudad r0)); [discriminate |].
    now apply IH.
Qed.

Lemma mapM_entrada_primera_aparicion (na : list resultado) :
  mapM (entrada na) (primera_aparicion (map ciudad na))
  = Some (map entrada_de (deduplicar na)).
Proof.
  rewrite <- map_ciudad_deduplicar.
  apply mapM_map. intros r Hr. now apply entrada_deduplicar.
Qed.

(** Under any admissible iteration order the dictionary is built
    without error; its keys are the iterated names, and its items are
    those of the first-wins deduplication, up to their order. *)
Lemma ciudades_oportunidad_ok (iter : list string -> list string)
  (rs : list resultado) :
  orden_de_set iter ->
  exists d,
    ciudades_oportunidad iter rs = Some d
    /\ mapM (entrada (no_apariciones rs))
            (iter (map ciudad (no_apariciones rs))) = Some d
    /\ map fst d = iter (map ciudad (no_apariciones rs))
    /\ Permutation d (map entrada_de (deduplicar (no_apariciones rs))).
Proof.
  intros Hiter. unfold ciudades_oportunidad.
  set (na := no_apariciones rs).
  destruct (Hiter (map ciudad na)) as [Hnd Hin].
  destruct (mapM_total (entrada na) (iter (map ciudad na))) as (d & Hd & _).
  { intros c Hc. apply entrada_total. now apply Hin. }
  exists d.
  rewrite construir_oportunidades_mapM by (auto; intros c _ []).
  rewrite Hd. simpl. repeat split; auto.
  - now apply mapM_entrada_fst with na.
  - assert (Hp : Permutation (iter (map ciudad na))
                             (primera_aparicion (map ciudad na))).
    { apply NoDup_Permutation; [exact Hnd | apply NoDup_primera_aparicion |].
      intros x. rewrite Hin, In_primera_aparicion. tauto. }
    destruct (mapM_Permutation _ _ _ Hp d Hd) as (d' & Hd' & Hpd).
    rewrite mapM_entrada_primera_aparicion in Hd'.
    injection Hd' as <-. exact Hpd.
Qed.

(** *** The stable sort by distance *)

Lemma insertar_Permutation (x : string * oportunidad) (l : dict) :
  Permutation (insertar x l) (x :: l).
Proof.
  induction l as [| y l IH]; simpl; [reflexivity |].
  destruct (Qlt_bool (distancia (snd y)) (distancia (snd x))); [| reflexivity].
  rewrite IH. apply perm_swap.
Qed.

Lemma sorted_por_distancia_Permutation (d : dict) :
  Permutation (sorted_por_distancia d) d.
Proof.
  induction d as [| x d IH]; simpl; [reflexivity |].
  rewrite insertar_Permutation. now constructor.
Qed.

Lemma insertar_HdRel (a x : string * oportunidad) (l : dict) :
  HdRel le_distancia a l -> le_distancia a x ->
  HdRel le_distancia a (insertar x l).
Proof.
  intros Hl Hx. destruct l as [| y l]; simpl; [now constructor |].
  destruct (Qlt_bool (distancia (snd y)) (distancia (snd x)));
    constructor; [now inversion Hl | exact Hx].
Qed.

Lemma insertar_Sorted (x : string * oportunidad) (l : dict) :
  Sorted le_distancia l -> Sorted le_distancia (insertar x l).
Proof.
  induction 1 as [| y l Hs IH Hhd]; simpl; [repeat constructor |].
  destruct (Qlt_bool (distancia (snd y)) (distancia (snd x))) eqn:E.
  - constructor; [exact IH |].
    apply insertar_HdRel; [exact Hhd |]. now apply Qlt_bool_true.
  - constructor; [now constructor |].
    constructor. now apply Qlt_bool_false.
Qed.

Lemma le_distancia_trans : Relations_1.Transitive le_distancia.
Proof. intros x y z; unfold le_distancia; apply Qle_trans. Qed.

(** The sorted list is ascending by distance. *)
Lemma sorted_por_distancia_Sorted (d : dict) :
  StronglySorted le_distancia (sorted_por_distancia d).
Proof.
  apply Sorted_StronglySorted; [exact le_distancia_trans |].
  induction d as [| x d IH]; simpl; [constructor |].
  now apply insertar_Sorted.
Qed.

Lemma insertar_filter (q : Q) (x : string * oportunidad) (l : dict) :
  filter (a_distancia q) (insertar x l)
  = filter (a_distancia q) (x :: l).
Proof.
  induction l as [| y l IH]; [reflexivity |].
  cbn [insertar].
  destruct (Qlt_bool (distancia (snd y)) (distancia (snd x))) eqn:E;
    [| reflexivity].
  cbn [filter] in *. rewrite IH.
  destruct (a_distancia q x) eqn:Hx; [| reflexivity].
  destruct (a_distancia q y) eqn:Hy; [| reflexivity].
  exfalso. unfold a_distancia, clave in Hx, Hy.
  apply Qeq_bool_iff in Hx, Hy.
  unfold Qlt_bool in E. apply negb_true_iff in E.
  assert (Hle : (distancia (snd x) <= distancia (snd y))%Q)
    by (rewrite Hx, Hy; apply Qle_refl).
  apply Qle_bool_iff in Hle. congruence.
Qed.

(** The sort is stable: the items at any one distance keep the order
    they have in the dictionary. *)
Lemma sorted_por_distancia_stable (q : Q) (d : dict) :
  filter (a_distancia q) (sorted_por_distancia d) = filter (a_distancia q) d.
Proof.
  induction d as [| x d IH]; [reflexivity |].
  cbn [sorted_por_distancia fold_right].
  rewrite insertar_filter. cbn [filter].
  unfold sorted_por_distancia in IH. rewrite IH. reflexivity.
Qed.

(** *** The report *)

Lemma map_cand_ciudad_enumerar (l : dict) :
  forall i, map cand_ciudad (enumerar i l) = map fst l.
Proof.
  induction l as [| [c v] l IH]; intros i; simpl; [| rewrite IH]; reflexivity.
Qed.

Lemma map_cand_data_enumerar (l : dict) :
  forall i, map cand_data (enumerar i l) = map snd l.
Proof.
  induction l as [| [c v] l IH]; intros i; simpl; [| rewrite IH]; reflexivity.
Qed.

Lemma length_enumerar (l : dict) :
  forall i, List.length (enumerar i l) = List.length l.
Proof.
  induction l as [| [c v] l IH]; intros i; simpl; [| rewrite IH]; reflexivity.
Qed.

Lemma NoDup_firstn {A : Type} (n : nat) (l : list A) :
  NoDup l -> NoDup (firstn n l).
Proof.
  intros H. rewrite <- (firstn_skipn n l) in H.
  now apply NoDup_app_remove_r in H.
Qed.

Lemma In_firstn {A : Type} (n : nat) (l : list A) (x : A) :
  In x (firstn n l) -> In x l.
Proof.
  intros H. rewrite <- (firstn_skipn n l). apply in_or_app. now left.
Qed.

Lemma In_no_apariciones (rs : list resultado) (c : string) :
  In c (map ciudad (no_apariciones rs))
  <-> exists r, In r rs /\ ciudad r = c /\ aparece r = false.
Proof.
  unfold no_apariciones. rewrite in_map_iff. split.
  - intros (r & Hc & Hr). apply filter_In in Hr as [Hr Hap].
    exists r. repeat split; auto. now apply negb_true_iff.
  - intros (r & Hr & Hc & Hap). exists r. split; [exact Hc |].
    apply filter_In. split; [exact Hr | now apply negb_true_iff].
Qed.

End Ranker.

(** C2, evaluated on a location found for one keyword and not found for
    another: Lennox has a present result and is reported all the same
    as an expansion candidate, among the cities where the subject does
    not appear. *)
Lemma candidate_despite_presence :
  orden_de_set primera_aparicion
  /\ (exists r, In r rs_parcial /\ ciudad r = "Lennox" /\ aparece r = true)
  /\ exists out,
       _generar_recomendaciones_expansion primera_aparicion rs_parcial
       = Some out
       /\ In "Lennox" (map cand_ciudad out).
Proof.
  split; [exact orden_de_set_primera_aparicion |]. split.
  - eexists. split; [left; reflexivity |]. split; reflexivity.
  - eexists. split; [vm_compute; reflexivity |]. left; reflexivity.
Qed.

(** X20: whatever the iteration order of the set, the dictionary of
    opportunities has exactly one entry per distinct location that has
    at least one non-present result, and none for a location all of
    whose results are present; the report lists ten of its locations,
    or all when there are fewer, none twice. *)
Theorem ciudades_oportunidad_one_per_location
  (iter : list string -> list string) (rs : list resultado) :
  orden_de_set iter ->
  exists d out,
    ciudades_oportunidad iter rs = Some d
    /\ NoDup (map fst d)
    /\ (forall c, In c (map fst d)
                  <-> exists r, In r rs /\ ciudad r = c /\ aparece r = false)
    /\ (forall c, (forall r, In r rs -> ciudad r = c -> aparece r = true) ->
                  ~ In c (map fst d))
    /\ _generar_recomendaciones_expansion iter rs = Some out
    /\ NoDup (map cand_ciudad out)
    /\ incl (map cand_ciudad out) (map fst d)
    /\ List.length out = Nat.min 10 (List.length d).
Proof.
  intros Hiter.
  destruct (ciudades_oportunidad_ok iter rs Hiter) as (d & Hd & _ & Hk & _).
  destruct (Hiter (map ciudad (no_apariciones rs))) as [Hnd Hin].
  assert (Hkeys : forall c, In c (map fst d)
            <-> exists r, In r rs /\ ciudad r = c /\ aparece r = false).
  { intros c. rewrite Hk, Hin. apply In_no_apariciones. }
  assert (Hperm : Permutation (map fst (sorted_por_distancia d)) (map fst d))
    by (apply Permutation_map, sorted_por_distancia_Permutation).
  exists d, (enumerar 1 (firstn 10 (sorted_por_distancia d))).
  split; [exact Hd |].
  split; [rewrite Hk; exact Hnd |].
  split; [exact Hkeys |].
  split.
  { intros c Hall Hc. apply Hkeys in Hc as (r & Hr & Hc & Hap).
    rewrite (Hall r Hr Hc) in Hap. discriminate. }
  split.
  { unfold _generar_recomendaciones_expansion, ciudades_ordenadas.
    rewrite Hd. reflexivity. }
  rewrite map_cand_ciudad_enumerar, length_enumerar, <- firstn_map.
  split; [| split].
  - apply NoDup_firstn.
    apply (Permutation_NoDup (l := map fst d)); [now symmetry |].
    rewrite Hk; exact Hnd.
  - intros c Hc. apply In_firstn in Hc.
    apply (Permutation_in _ Hperm Hc).
  - rewrite length_firstn.
    rewrite (Permutation_length (sorted_por_distancia_Permutation d)).
    reflexivity.
Qed.

(** Eleven absent locations, one with two results; the set iterated in
    reverse order: eleven entries, ten of them reported, Torrance, the
    farthest, left out. *)
Lemma ciudades_oportunidad_one_per_location_witness :
  orden_de_set orden_inverso
  /\ exists d out,
       ciudades_oportunidad orden_inverso rs_once = Some d
       /\ List.length d = 11%nat
       /\ NoDup (map fst d)
       /\ _generar_recomendaciones_expansion orden_inverso rs_once
          = Some out
       /\ List.length out = 10%nat
       /\ NoDup (map cand_ciudad out)
       /\ ~ In "Torrance" (map cand_ciudad out).
Proof.
  split; [exact orden_de_set_orden_inverso |].
  destruct (ciudades_oportunidad_one_per_location orden_inverso rs_once
              orden_de_set_orden_inverso)
    as (d & out & Hd & Hnd & _ & _ & Hout & Hndo & _ & Hlen).
  exists d, out.
  split; [exact Hd |].
  assert (Hl : List.length d = 11%nat)
    by (vm_compute in Hd; injection Hd as <-; reflexivity).
  split; [exact Hl |]. split; [exact Hnd |]. split; [exact Hout |].
  split; [rewrite Hlen, Hl; reflexivity |]. split; [exact Hndo |].
  vm_compute in Hout. injection Hout as <-. simpl.
  intros H. repeat (destruct H as [H | H]; [discriminate H |]). exact H.
Defined.

(** When the set yields its names in order of first occurrence, the
    code computes what the specification words. *)
Lemma rank_spec_primera_aparicion (rs : list resultado) :
  _generar_recomendaciones_expansion primera_aparicion rs
  = Some (rank_spec rs).
Proof.
  destruct (ciudades_oportunidad_ok primera_aparicion rs
              orden_de_set_primera_aparicion) as (d & Hd & Hm & _).
  rewrite mapM_entrada_primera_aparicion in Hm. injection Hm as <-.
  unfold _generar_recomendaciones_expansion, ciudades_ordenadas.
  rewrite Hd. reflexivity.
Qed.

(** C3, as stated, fails on two absent locations at the same distance
    when the set yields Gardena before Hawthorne: the report lists
    Gardena first, the input order would list Hawthorne first. *)
Lemma tie_order_is_not_input_order :
  orden_de_set orden_inverso
  /\ (exists out,
        _generar_recomendaciones_expansion orden_inverso rs_empate = Some out
        /\ map cand_ciudad out = ["Gardena"; "Hawthorne"])
  /\ map cand_ciudad (rank_spec rs_empate) = ["Hawthorne"; "Gardena"]
  /\ _generar_recomendaciones_expansion orden_inverso rs_empate
     <> Some (rank_spec rs_empate).
Proof.
  split; [exact orden_de_set_orden_inverso |].
  split; [eexists; split; [vm_compute |]; reflexivity |].
  split; [reflexivity |].
  vm_compute. intros H. discriminate H.
Qed.

(** C3, amended: whatever the iteration order of the set of location
    names, the ranker keeps for each location the first non-present
    result in input order, sorts these candidates ascending by distance
    with a stable sort, so that candidates at equal distance stay in
    the order in which the set yields their names (which need not be
    the input order), and reports the first ten of the sorted list. *)
Theorem rank_first_wins_sorted_top10
  (iter : list string -> list string) (rs : list resultado) :
  orden_de_set iter ->
  exists d out,
    ciudades_oportunidad iter rs = Some d
    /\ map fst d = iter (map ciudad (no_apariciones rs))
    /\ Permutation d (map entrada_de (deduplicar (no_apariciones rs)))
    /\ (forall c v, In (c, v) d ->
          exists l1 r l2,
            no_apariciones rs = l1 ++ r :: l2
            /\ ciudad r = c
            /\ (forall r', In r' l1 -> ciudad r' <> c)
            /\ v = oportunidad_de r)
    /\ _generar_recomendaciones_expansion iter rs = Some out
    /\ out = enumerar 1 (firstn 10 (sorted_por_distancia d))
    /\ Permutation (sorted_por_distancia d) d
    /\ StronglySorted le_distancia (sorted_por_distancia d)
    /\ (forall q, filter (a_distancia q) (sorted_por_distancia d)
                  = filter (a_distancia q) d)
    /\ (List.length out <= 10)%nat.
Proof.
  intros Hiter.
  destruct (ciudades_oportunidad_ok iter rs Hiter)
    as (d & Hd & Hm & Hk & Hp).
  exists d, (enumerar 1 (firstn 10 (sorted_por_distancia d))).
  split; [exact Hd |]. split; [exact Hk |]. split; [exact Hp |].
  split.
  { intros c v Hin.
    destruct (mapM_In _ _ _ _ Hm Hin) as (c' & _ & He).
    destruct (entrada_first _ _ _ He) as (l1 & r & l2 & Hna & Hr & Hl1 & Hcv).
    injection Hcv as -> ->. exists l1, r, l2. auto. }
  split.
  { unfold _generar_recomendaciones_expansion, ciudades_ordenadas.
    rewrite Hd. reflexivity. }
  split; [reflexivity |].
  split; [apply sorted_por_distancia_Permutation |].
  split; [apply sorted_por_distancia_Sorted |].
  split; [intros q; apply sorted_por_distancia_stable |].
  rewrite length_enumerar. apply firstn_le_length.
Qed.

(** Absent locations at 10, 3 and 7 km: reported at 3, 7 and 10 km,
    Hawthorne once, from its first result. *)
Lemma rank_first_wins_sorted_top10_witness :
  orden_de_set primera_aparicion
  /\ exists out,
       _generar_recomendaciones_expansion primera_aparicion rs_ausentes
       = Some out
       /\ map cand_ciudad out = ["Hawthorne"; "Gardena"; "Torrance"]
       /\ map (fun x => reviews_competidores (cand_data x)) out
          = [99; 100; 250]%Z
       /\ map cand_dificultad out = [EASY; MEDIUM; HARD].
Proof.
  split; [exact orden_de_set_primera_aparicion |].
  destruct (rank_first_wins_sorted_top10 primera_aparicion rs_ausentes
              orden_de_set_primera_aparicion)
    as (d & out & _ & _ & _ & _ & Hout & _).
  exists out. split; [exact Hout |].
  vm_compute in Hout. injection Hout as <-.
  repeat split; reflexivity.
Defined.

(** ** Campaign runner *)

(** Every record returned by the point analyzer satisfies the
    invariant of analysis results. *)
Lemma analizar_ciudad_bien_formado (b : bot) (resp : respuesta)
  (o : db_outcome) (c : ciudad_t) (kw tr : string) (st st' : estado)
  (r : resultado) :
  analizar_ciudad b resp o c kw tr st = (Some r, st') -> bien_formado r.
Proof.
  destruct (analizar_ciudad_eq b resp o c kw tr st) as (d & _ & Heq).
  rewrite Heq. cbv zeta.
  destruct (respuesta_exitosa resp); [| discriminate].
  destruct (rollback_raises o); [discriminate |].
  intros [= <- _]. reflexivity.
Qed.

Lemma fold_left_paso_bien_formado (b : bot) (w : mundo)
  (qs : list (string * ciudad_t * string)) :
  forall acc, Forall bien_formado (fst acc) ->
              Forall bien_formado (fst (fold_left (paso b w) qs acc)).
Proof.
  induction qs as [| [[t c] kw] qs IH]; intros acc Hacc; [exact Hacc |].
  cbn [fold_left]. apply IH.
  unfold paso. destruct (w c kw) as [resp o].
  destruct (analizar_ciudad b resp o c kw t (snd acc)) as [[r |] st'] eqn:E;
    [| exact Hacc].
  cbn [fst]. apply Forall_app. split; [exact Hacc |].
  constructor; [| constructor].
  exact (analizar_ciudad_bien_formado _ _ _ _ _ _ _ _ _ E).
Qed.

(** The results accumulated by a run are well formed, so the dominance
    report over them raises nothing. *)
Lemma recorrer_bien_formado (b : bot) (w : mundo)
  (ciudades_test : list (string * list ciudad_t))
  (core_keywords : list string) (st : estado) :
  Forall bien_formado (fst (recorrer b w ciudades_test core_keywords st)).
Proof.
  unfold recorrer. apply fold_left_paso_bien_formado. constructor.
Qed.

(** Whatever the outside world does and however the set is iterated, a
    run ends with its results and both reports. *)
Lemma ejecutar_analisis_fronteras_total (b : bot) (w : mundo)
  (iter : list string -> list string)
  (ciudades_test : list (string * list ciudad_t))
  (core_keywords : list string) (st : estado) :
  orden_de_set iter ->
  exists informe,
    fst (ejecutar_analisis_fronteras b w iter ciudades_test core_keywords st)
    = Some informe.
Proof.
  intros Hiter. unfold ejecutar_analisis_fronteras.
  pose proof (recorrer_bien_formado b w ciudades_test core_keywords st) as Hwf.
  destruct (recorrer b w ciudades_test core_keywords st) as [rs st'].
  cbn [fst] in *.
  destruct (ciudades_oportunidad_ok iter rs Hiter) as (d & Hd & _).
  assert (Hr : exists out,
             _generar_recomendaciones_expansion iter rs = Some out).
  { unfold _generar_recomendaciones_expansion, ciudades_ordenadas.
    rewrite Hd. simpl. eauto. }
  destruct Hr as [out Hout].
  assert (Hm : exists m, _generar_mapa_dominio rs = Some m).
  { destruct (generar_mapa_dominio_total rs Hwf) as [m Hm]. eauto. }
  destruct Hm as [m Hm].
  rewrite Hm, Hout. simpl. eauto.
Qed.

(** * Further properties *)

(** ** Distance calculator: range and meridian arcs *)

Section DistanciaRango.
Local Open Scope R_scope.

(** For two non-negative numbers not both zero, [atan2] gives an angle
    of the first quadrant. *)
Lemma math_atan2_first_quadrant (y x : R) :
  0 <= y -> 0 <= x -> 0 <= math_atan2 y x <= PI / 2.
Proof.
  intros Hy Hx. unfold math_atan2.
  pose proof PI_RGT_0 as Hpi.
  destruct (total_order_T x 0) as [[Hlt | Heq] | Hgt]; [lra | |].
  - destruct (total_order_T y 0) as [[Hlt | Heq'] | Hgt]; lra.
  - pose proof (atan_bound (y / x)) as [_ Hub].
    split; [| lra].
    destruct (Req_dec y 0) as [-> | Hne].
    + replace (0 / x) with 0 by (field; lra). rewrite atan_0. lra.
    + rewrite <- atan_0. left. apply atan_increasing.
      apply Rdiv_lt_0_compat; lra.
Qed.

Lemma _calcular_distancia_bounds (lat1 lng1 lat2 lng2 : option R) (d : R) :
  _calcular_distancia lat1 lng1 lat2 lng2 = Some d -> 0 <= d <= 6371 * PI.
Proof.
  pose proof PI_RGT_0 as Hpi.
  unfold _calcular_distancia.
  destruct (negb (forallb truthy [lat1; lng1; lat2; lng2]));
    [intros [= <-]; lra |].
  destruct lat1 as [a1 |], lng1 as [g1 |], lat2 as [a2 |], lng2 as [g2 |];
    try (intros [= <-]; lra).
  rewrite haversine_eq. intros [= <-].
  destruct (math_atan2_first_quadrant
              (sqrt (haversine_a a1 g1 a2 g2))
              (sqrt (1 - haversine_a a1 g1 a2 g2))
              (sqrt_pos _) (sqrt_pos _)) as [H0 H1].
  split; nra.
Qed.

(** X1: a distance returned by the calculator lies between 0 and half
    the circumference of the sphere. *)
Theorem calcular_distancia_range (lat1 lng1 lat2 lng2 : option R) (d : R) :
  _calcular_distancia lat1 lng1 lat2 lng2 = Some d ->
  0 <= d <= 6371 * PI.
Proof.
  pose proof PI_RGT_0 as Hpi.
  unfold _calcular_distancia.
  destruct (negb (forallb truthy [lat1; lng1; lat2; lng2]));
    [intros [= <-]; lra |].
  destruct lat1 as [a1 |], lng1 as [g1 |], lat2 as [a2 |], lng2 as [g2 |];
    try (intros [= <-]; lra).
  rewrite haversine_eq. intros [= <-].
  destruct (math_atan2_first_quadrant
              (sqrt (haversine_a a1 g1 a2 g2))
              (sqrt (1 - haversine_a a1 g1 a2 g2))
              (sqrt_pos _) (sqrt_pos _)) as [H0 H1].
  split; nra.
Qed.

(** From the base to Lennox. *)
Lemma calcular_distancia_range_witness :
  exists d,
    _calcular_distancia (base_lat bot_acme) (base_lng bot_acme)
      (c_lat lennox) (c_lng lennox) = Some d
    /\ 0 <= d <= 6371 * PI.
Proof.
  destruct (_calcular_distancia_total (base_lat bot_acme) (base_lng bot_acme)
              (c_lat lennox) (c_lng lennox)) as [d Hd].
  exists d. split; [exact Hd |].
  exact (calcular_distancia_range _ _ _ _ d Hd).
Defined.

Lemma truthy_Some (x : R) : x <> 0 -> truthy (Some x) = true.
Proof.
  intros Hx. unfold truthy. destruct (Req_dec_T x 0); [tauto | reflexivity].
Qed.

Lemma math_atan2_sin_cos (x : R) :
  0 <= x <= PI / 2 -> math_atan2 (sin x) (cos x) = x.
Proof.
  intros [H0 H1]. unfold math_atan2.
  pose proof PI_RGT_0 as Hpi.
  destruct (Rle_lt_or_eq_dec _ _ H1) as [Hlt | ->].
  - assert (Hc : 0 < cos x) by (apply cos_gt_0; lra).
    destruct (total_order_T (cos x) 0) as [[Hl | He] | Hg]; try lra.
    change (sin x / cos x) with (tan x). apply atan_tan. lra.
  - rewrite cos_PI2, sin_PI2.
    destruct (total_order_T 0 0) as [[Hl | He] | Hg]; try lra.
    destruct (total_order_T 1 0) as [[Hl | He'] | Hg]; lra.
Qed.

(** X2: along a meridian the distance is the length of the arc: for two
    points of equal longitude whose latitudes differ by at most 180
    degrees, it is the radius times the difference in radians. *)
Theorem calcular_distancia_meridian (lat1 lat2 lng : R) :
  lat1 <> 0 -> lat2 <> 0 -> lng <> 0 ->
  0 <= lat2 - lat1 <= 180 ->
  _calcular_distancia (Some lat1) (Some lng) (Some lat2) (Some lng)
  = Some (6371 * radians (lat2 - lat1)).
Proof.
  intros H1 H2 Hg [Hlo Hhi].
  pose proof PI_RGT_0 as Hpi.
  unfold _calcular_distancia. cbn [forallb].
  rewrite !truthy_Some by assumption. simpl.
  rewrite haversine_eq.
  set (x := radians (lat2 - lat1) / 2).
  assert (Hx : 0 <= x <= PI / 2).
  { unfold x, radians. split; nra. }
  assert (Ha : haversine_a lat1 lng lat2 lng = sin x * sin x).
  { unfold haversine_a. fold x.
    replace (radians (lng - lng) / 2) with 0 by (unfold radians; field).
    rewrite sin_0. ring. }
  rewrite Ha.
  assert (Hs : 0 <= sin x) by (apply sin_ge_0; lra).
  assert (Hc : 0 <= cos x) by (apply cos_ge_0; lra).
  rewrite (sqrt_square _ Hs).
  replace (1 - sin x * sin x) with (cos x * cos x)
    by (pose proof (sin2_cos2 x) as E; unfold Rsqr in E; lra).
  rewrite (sqrt_square _ Hc), (math_atan2_sin_cos x Hx).
  f_equal. unfold x. field.
Qed.

(** One degree of latitude north of 33 N, 118 W. *)
Lemma calcular_distancia_meridian_witness :
  _calcular_distancia (Some 33) (Some (-118)) (Some 34) (Some (-118))
  = Some (6371 * radians (34 - 33)).
Proof.
  apply calcular_distancia_meridian; lra.
Defined.

End DistanciaRango.

(** ** Presence matcher: substring semantics *)

Section Coincidencia.

Lemma prefix_iff (a b : string) :
  String.prefix a b = true <-> exists post, b = (a ++ post)%string.
Proof.
  revert a; induction b as [| c' b IH]; intros [| c a]; simpl.
  - split; [intros _; now exists "" | reflexivity].
  - split; [discriminate | intros [? [=]]].
  - split; [intros _; now exists (String c' b) | reflexivity].
  - destruct (Ascii.ascii_dec c c') as [<- | Hne].
    + rewrite IH. split; intros [post H]; exists post; congruence.
    + split; [discriminate |]. intros [post [= H _]]. congruence.
Qed.

(** [needle in hay] holds exactly when [hay] can be cut around a copy
    of [needle]. *)
Lemma contains_iff (needle hay : string) :
  Str.contains needle hay = true
  <-> exists pre post, hay = (pre ++ needle ++ post)%string.
Proof.
  induction hay as [| c hay IH].
  - cbn [Str.contains]. rewrite orb_false_r, prefix_iff. split.
    + intros [post H]. now exists "", post.
    + intros (pre & post & H). destruct pre; [now exists post |].
      discriminate.
  - cbn [Str.contains]. rewrite orb_true_iff, prefix_iff, IH. split.
    + intros [[post H] | (pre & post & H)].
      * now exists "", post.
      * exists (String c pre), post. simpl. now rewrite H.
    + intros (pre & post & H). destruct pre as [| c' pre].
      * left. now exists post.
      * right. injection H as _ H. now exists pre, post.
Qed.

Lemma lower_ascii_idem (c : ascii) :
  Str.lower_ascii (Str.lower_ascii c) = Str.lower_ascii c.
Proof.
  destruct c as [[] [] [] [] [] [] [] []]; reflexivity.
Qed.

Lemma lower_idem (s : string) : Str.lower (Str.lower s) = Str.lower s.
Proof.
  induction s as [| c s IH]; simpl; [| rewrite lower_ascii_idem, IH];
    reflexivity.
Qed.

(** X3: an entity is taken for the subject exactly when its lowercased name
    (empty when the name is absent) contains, as a substring, one of the
    comma-separated terms of the lowercased configuration, trimmed. *)
Theorem es_tu_negocio_iff (env : option string) (p : place) :
  _es_tu_negocio env p = true
  <-> exists term pre post,
        In term (business_terms env)
        /\ Str.lower (match place_name p with Some n => n | None => "" end)
           = (pre ++ Str.strip term ++ post)%string.
Proof.
  unfold _es_tu_negocio. rewrite existsb_exists. split.
  - intros (term & Hin & Hc). apply contains_iff in Hc as (pre & post & H).
    now exists term, pre, post.
  - intros (term & pre & post & Hin & H). exists term. split; [exact Hin |].
    apply contains_iff. now exists pre, post.
Qed.

(** X4: matching ignores letter case on both sides: lowercasing the
    configured keywords and the entity's name changes no verdict. *)
Theorem es_tu_negocio_case_insensitive (e n : string) (rt : option Q)
  (rv : option Z) :
  _es_tu_negocio (Some (Str.lower e)) (mk_place (Some (Str.lower n)) rt rv)
  = _es_tu_negocio (Some e) (mk_place (Some n) rt rv).
Proof.
  unfold _es_tu_negocio, business_terms. simpl.
  rewrite !lower_idem. reflexivity.
Qed.

Lemma contains_empty (hay : string) : Str.contains "" hay = true.
Proof. destruct hay; reflexivity. Qed.

(** X5: a term that is empty once trimmed, as left by a trailing comma or
    an empty [BUSINESS_KEYWORDS], makes every entity the subject. *)
Theorem es_tu_negocio_blank_term (env : option string) (term : string)
  (p : place) :
  In term (business_terms env) -> Str.strip term = "" ->
  _es_tu_negocio env p = true.
Proof.
  intros Hin Hs. unfold _es_tu_negocio. apply existsb_exists.
  exists term. split; [exact Hin |]. rewrite Hs. apply contains_empty.
Qed.

Lemma es_tu_negocio_blank_term_witness :
  _es_tu_negocio (Some "acme, ") (mk_place (Some "Sparkle Maids") None None)
  = true.
Proof.
  apply (es_tu_negocio_blank_term (Some "acme, ") " ");
    [right; left; reflexivity | reflexivity].
Defined.

End Coincidencia.

(** ** Bounds on the analysis record *)

Lemma nth_error_len {A : Type} (l : list A) (i : nat) (x : A) :
  nth_error l i = Some x -> (Z.of_nat i + 1 <= len l)%Z.
Proof.
  intros H. assert (Hlt : (i < List.length l)%nat).
  { apply nth_error_Some. congruence. }
  unfold len. lia.
Qed.

(** X6: on a success response a rank position, when present, lies between
    1 and 20 and does not exceed the number of returned entities (the
    record being returned unless the handler of the write raises). *)
Theorem analizar_ciudad_posicion_bounds (b : bot) (resp : respuesta)
  (o : db_outcome) (c : ciudad_t) (kw tr : string) (st : estado) :
  respuesta_exitosa resp = true ->
  exists r st',
    analizar_ciudad b resp o c kw tr st
    = (if rollback_raises o then None else Some r, st')
    /\ forall k, posicion r = Some k ->
                 (1 <= k <= 20)%Z /\ (k <= len (lugares resp))%Z.
Proof.
  intros Hok.
  destruct (analizar_ciudad_eq b resp o c kw tr st) as (d & _ & Heq).
  rewrite Hok in Heq. cbv zeta in Heq.
  eexists; eexists; split; [exact Heq |].
  intros k Hk. cbn [posicion construir_resultado] in Hk.
  apply tu_posicion_some in Hk as (i & p & -> & Hi & Hn & _).
  apply nth_error_len in Hn. lia.
Qed.

Lemma analizar_ciudad_posicion_bounds_witness :
  respuesta_exitosa (resp_ok [p_sparkle; p_acme]) = true
  /\ exists r st',
       analizar_ciudad bot_acme (resp_ok [p_sparkle; p_acme]) DbOk lennox
         "house cleaning" "tier_1_immediate" estado_inicial = (Some r, st')
       /\ forall k, posicion r = Some k ->
                    (1 <= k <= 20)%Z
                    /\ (k <= len (lugares (resp_ok [p_sparkle; p_acme])))%Z.
Proof.
  split; [reflexivity |].
  apply analizar_ciudad_posicion_bounds. reflexivity.
Defined.

Section Redondeo.
Local Open Scope R_scope.

Lemma round_half_even_R_nonneg (x : R) :
  0 <= x -> (0 <= round_half_even_R x)%Z.
Proof.
  intros Hx. unfold round_half_even_R.
  destruct (base_Int_part x) as [_ Hlo].
  assert (Hf : (0 <= Int_part x)%Z).
  { assert (H : (-1 < Int_part x)%Z) by (apply lt_IZR; simpl; lra). lia. }
  destruct (Rlt_dec _ _); [exact Hf |].
  destruct (Rlt_dec _ _); [lia |].
  destruct (Z.even _); lia.
Qed.

End Redondeo.

(** X7: the distance stored in a record is never negative (the record
    being returned unless the handler of the write raises). *)
Theorem analizar_ciudad_distancia_nonneg (b : bot) (resp : respuesta)
  (o : db_outcome) (c : ciudad_t) (kw tr : string) (st : estado) :
  respuesta_exitosa resp = true ->
  exists r st',
    analizar_ciudad b resp o c kw tr st
    = (if rollback_raises o then None else Some r, st')
    /\ (0 <= distancia_km r)%Q.
Proof.
  intros Hok.
  destruct (analizar_ciudad_eq b resp o c kw tr st) as (d & Hd & Heq).
  rewrite Hok in Heq. cbv zeta in Heq.
  eexists; eexists; split; [exact Heq |].
  cbn [distancia_km construir_resultado].
  apply _calcular_distancia_bounds in Hd as [H0 _].
  unfold round2_R, Qle. simpl.
  assert (Hn : (0 <= round_half_even_R (d * 100))%Z)
    by (apply round_half_even_R_nonneg; lra).
  lia.
Qed.

Lemma analizar_ciudad_distancia_nonneg_witness :
  respuesta_exitosa (resp_ok [p_sparkle]) = true
  /\ exists r st',
       analizar_ciudad bot_acme (resp_ok [p_sparkle]) DbExecuteFails lennox
         "maid service" "tier_1_immediate" estado_inicial = (Some r, st')
       /\ (0 <= distancia_km r)%Q.
Proof.
  split; [reflexivity |].
  apply analizar_ciudad_distancia_nonneg. reflexivity.
Defined.

(** ** Competitor averages: range *)

Section Promedios.
Local Open Scope Q_scope.

Lemma sum_Q_cons (x : Q) (l : list Q) : sum_Q (x :: l) == x + sum_Q l.
Proof.
  unfold sum_Q. simpl. generalize 0 as a.
  induction l as [| y l IH]; intros a; simpl.
  - ring.
  - rewrite <- IH. apply fold_left_Qplus_comp. ring.
Qed.

Lemma sum_Q_bounds (lo hi : Q) (l : list Q) :
  (forall x, In x l -> lo <= x <= hi) ->
  lo * inject_Z (len l) <= sum_Q l <= hi * inject_Z (len l).
Proof.
  induction l as [| x l IH]; intros H.
  - unfold sum_Q, len. simpl. split; ring_simplify; apply Qle_refl.
  - rewrite sum_Q_cons.
    destruct (H x (or_introl eq_refl)) as [Hlo Hhi].
    destruct IH as [IHlo IHhi]; [intros y Hy; apply H; now right |].
    unfold len in *. cbn [List.length]. rewrite Nat2Z.inj_succ.
    unfold Z.succ. rewrite inject_Z_plus. change (inject_Z 1) with 1.
    split; lra.
Qed.

(** The mean of a non-empty list lies between any two bounds of its
    elements. *)
Lemma media_bounds (lo hi : Q) (l : list Q) :
  l <> [] -> (forall x, In x l -> lo <= x <= hi) -> lo <= media l <= hi.
Proof.
  intros Hne H. destruct (sum_Q_bounds lo hi l H) as [Hlo Hhi].
  destruct l as [| x l]; [congruence |].
  unfold media.
  assert (Hn : 0 < inject_Z (len (x :: l))).
  { unfold len. cbn [List.length]. rewrite Nat2Z.inj_succ.
    change 0 with (inject_Z 0). rewrite <- Zlt_Qlt. lia. }
  split.
  - apply Qle_shift_div_l; assumption.
  - apply Qle_shift_div_r; assumption.
Qed.

(** Rounding a number that lies between two integers stays between
    them. *)
Lemma round_half_even_Q_between (a b : Z) (y : Q) :
  inject_Z a <= y <= inject_Z b ->
  (a <= round_half_even_Q y <= b)%Z.
Proof.
  intros [Ha Hb]. unfold round_half_even_Q.
  assert (Hfa : (a <= Qfloor y)%Z).
  { rewrite <- (Qfloor_Z a). now apply Qfloor_resp_le. }
  assert (Hfb : (Qfloor y <= b)%Z).
  { rewrite <- (Qfloor_Z b). now apply Qfloor_resp_le. }
  assert (Hup : inject_Z (Qfloor y) < y -> (Qfloor y + 1 <= b)%Z).
  { intros Hlt. assert (H : (Qfloor y < b)%Z).
    { rewrite Zlt_Qlt. now apply Qlt_le_trans with y. }
    lia. }
  destruct (Qcompare_spec (y - inject_Z (Qfloor y)) (1 # 2)) as [He | Hl | Hg].
  - destruct (Z.even (Qfloor y)); [lia |].
    split; [lia |]. apply Hup. lra.
  - lia.
  - split; [lia |]. apply Hup. lra.
Qed.

Lemma round2_Q_between (a b : Z) (q : Q) :
  inject_Z a <= q <= inject_Z b ->
  inject_Z a <= round2_Q q <= inject_Z b.
Proof.
  intros [Ha Hb]. unfold round2_Q.
  destruct (round_half_even_Q_between (a * 100) (b * 100) (q * 100))
    as [Hlo Hhi].
  { rewrite !inject_Z_mult. change (inject_Z 100) with 100. split; lra. }
  unfold Qle, inject_Z. simpl. lia.
Qed.

Lemma fold_left_Zadd_acc (l : list Z) :
  forall a, fold_left Z.add l a = (a + fold_left Z.add l 0)%Z.
Proof.
  induction l as [| y l IH]; intros a; simpl; [lia |].
  rewrite (IH (a + y)%Z), (IH y). lia.
Qed.

Lemma sum_Z_cons (x : Z) (l : list Z) : sum_Z (x :: l) = (x + sum_Z l)%Z.
Proof. unfold sum_Z. simpl. apply fold_left_Zadd_acc. Qed.

Lemma sum_Z_bounds (lo hi : Z) (l : list Z) :
  (forall x, In x l -> (lo <= x <= hi)%Z) ->
  (lo * len l <= sum_Z l <= hi * len l)%Z.
Proof.
  induction l as [| x l IH]; intros H.
  - unfold sum_Z, len. simpl. lia.
  - rewrite sum_Z_cons.
    destruct (H x (or_introl eq_refl)) as [Hlo Hhi].
    destruct IH as [IHlo IHhi]; [intros y Hy; apply H; now right |].
    unfold len in *. cbn [List.length]. rewrite Nat2Z.inj_succ. lia.
Qed.

Lemma calc_reviews_promedio_bounds (hi : Z) (comp : list place) :
  (0 <= hi)%Z ->
  (forall p, In p comp -> (0 <= get_user_ratings_total p <= hi)%Z) ->
  (0 <= calc_reviews_promedio comp <= hi)%Z.
Proof.
  intros Hhi H. destruct comp as [| p comp]; [simpl; lia |].
  unfold calc_reviews_promedio.
  set (l := p :: comp) in *.
  destruct (sum_Z_bounds 0 hi (map get_user_ratings_total l)) as [Hlo Hup].
  { intros x Hx. apply in_map_iff in Hx as (q & <- & Hq). now apply H. }
  rewrite len_map in Hlo, Hup.
  assert (Hn : (0 < len l)%Z) by (unfold len, l; simpl; lia).
  split.
  - apply Z.quot_pos; lia.
  - apply Z.quot_le_upper_bound; lia.
Qed.

Lemma calc_rating_promedio_bounds (comp : list place) :
  (forall p, In p comp -> 0 <= get_rating p <= 5) ->
  0 <= calc_rating_promedio comp <= 5.
Proof.
  intros H. rewrite calc_rating_promedio_media.
  destruct comp as [| p comp]; [simpl; split; discriminate |].
  apply media_bounds; [discriminate |].
  intros x Hx. apply in_map_iff in Hx as (q & <- & Hq). now apply H.
Qed.

End Promedios.

(** X8: when every competitor's rating lies between 0 and 5 and every
    review count between 0 and a bound (an absent value counting as 0),
    the stored rating average lies between 0 and 5 and the stored review
    average between 0 and that bound: rounding and truncation do not
    leave the range of the data (the record being returned unless the
    handler of the write raises). *)
Theorem analizar_ciudad_averages_in_range (b : bot) (resp : respuesta)
  (o : db_outcome) (c : ciudad_t) (kw tr : string) (st : estado) (hi : Z) :
  respuesta_exitosa resp = true ->
  (0 <= hi)%Z ->
  (forall p, In p (competidores (business_keywords_env b) (lugares resp)) ->
             (0 <= get_rating p <= 5)%Q
             /\ (0 <= get_user_ratings_total p <= hi)%Z) ->
  exists r st',
    analizar_ciudad b resp o c kw tr st
    = (if rollback_raises o then None else Some r, st')
    /\ (0 <= rating_promedio r <= 5)%Q
    /\ (0 <= reviews_promedio r <= hi)%Z.
Proof.
  intros Hok Hhi H.
  destruct (analizar_ciudad_eq b resp o c kw tr st) as (d & _ & Heq).
  rewrite Hok in Heq. cbv zeta in Heq.
  eexists; eexists; split; [exact Heq |].
  cbn [rating_promedio reviews_promedio construir_resultado]. split.
  - apply (round2_Q_between 0 5).
    apply calc_rating_promedio_bounds. intros p Hp. now apply H.
  - apply calc_reviews_promedio_bounds; [exact Hhi |].
    intros p Hp. now apply H.
Qed.

Lemma analizar_ciudad_averages_in_range_witness :
  exists r st',
    analizar_ciudad bot_acme (resp_ok [p_acme; p_sparkle; p_tidy]) DbOk lennox
      "house cleaning" "tier_1_immediate" estado_inicial = (Some r, st')
    /\ (0 <= rating_promedio r <= 5)%Q
    /\ (0 <= reviews_promedio r <= 151)%Z.
Proof.
  apply (analizar_ciudad_averages_in_range bot_acme
           (resp_ok [p_acme; p_sparkle; p_tidy]));
    [reflexivity | lia |].
  intros p [<- | [<- | []]]; split; vm_compute; split; discriminate.
Defined.

(** X9: when the configuration has a blank term and the search returns
    at least one entity, the first entity is taken for the subject:
    the record has rank position 1, and, every entity being excluded
    from the competitors, both averages are 0 (the record being
    returned unless the handler of the write raises). *)
Theorem analizar_ciudad_blank_term (b : bot) (resp : respuesta)
  (o : db_outcome) (c : ciudad_t) (kw tr : string) (st : estado)
  (term : string) :
  respuesta_exitosa resp = true ->
  In term (business_terms (business_keywords_env b)) ->
  Str.strip term = "" ->
  lugares resp <> [] ->
  exists r st',
    analizar_ciudad b resp o c kw tr st
    = (if rollback_raises o then None else Some r, st')
    /\ aparece r = true
    /\ posicion r = Some 1%Z
    /\ (rating_promedio r == 0)%Q
    /\ reviews_promedio r = 0%Z.
Proof.
  intros Hok Hin Hs Hne.
  destruct (analizar_ciudad_eq b resp o c kw tr st) as (d & _ & Heq).
  rewrite Hok in Heq. cbv zeta in Heq.
  eexists; eexists; split; [exact Heq |].
  cbn [aparece posicion rating_promedio reviews_promedio construir_resultado].
  assert (Hall : forall p, _es_tu_negocio (business_keywords_env b) p = true).
  { intros p. unfold _es_tu_negocio. apply existsb_exists.
    exists term. split; [exact Hin |]. rewrite Hs. apply contains_empty. }
  assert (Hnone : forall l, competidores (business_keywords_env b) l = []).
  { unfold competidores. induction l as [| p l IH]; [reflexivity |].
    simpl. rewrite Hall. exact IH. }
  pose proof (Hnone (lugares resp)) as Hcomp.
  assert (Hpos : tu_posicion (business_keywords_env b) (lugares resp)
                 = Some 1%Z).
  { unfold tu_posicion. destruct (lugares resp) as [| p l]; [congruence |].
    simpl. rewrite Hall. reflexivity. }
  rewrite Hpos, Hcomp. repeat split; reflexivity.
Qed.

Lemma analizar_ciudad_blank_term_witness :
  exists r st',
    analizar_ciudad (mk_bot None None (Some "acme,"))
      (resp_ok [p_sparkle; p_bright]) DbOk lennox
      "house cleaning" "tier_1_immediate" estado_inicial = (Some r, st')
    /\ aparece r = true
    /\ posicion r = Some 1%Z
    /\ (rating_promedio r == 0)%Q
    /\ reviews_promedio r = 0%Z.
Proof.
  apply (analizar_ciudad_blank_term (mk_bot None None (Some "acme,"))
           (resp_ok [p_sparkle; p_bright]) DbOk lennox
           "house cleaning" "tier_1_immediate" estado_inicial "");
    [reflexivity | right; left; reflexivity | reflexivity | discriminate].
Defined.

(** ** Campaign runner: queries, results and writes *)

Section Recorrido.

Variable b : bot.

Lemma paso_eq (w : mundo) (acc : list resultado * estado)
  (t : string) (c : ciudad_t) (kw : string) :
  exists d,
    _calcular_distancia (base_lat b) (base_lng b) (c_lat c) (c_lng c) = Some d
    /\ paso b w acc (t, c, kw) =
       let r := construir_resultado b c kw t (lugares (fst (w c kw))) d in
       if respuesta_exitosa (fst (w c kw))
       then (if rollback_raises (snd (w c kw))
             then fst acc else fst acc ++ [r],
             snd (_guardar_resultado (snd (w c kw)) r (snd acc)))
       else (fst acc, snd acc).
Proof.
  unfold paso. destruct (w c kw) as [resp o]. cbn [fst snd].
  destruct (analizar_ciudad_eq b resp o c kw t (snd acc)) as (d & Hd & Heq).
  exists d. split; [exact Hd |]. rewrite Heq. cbv zeta.
  destruct (respuesta_exitosa resp); [| reflexivity].
  destruct (rollback_raises o); reflexivity.
Qed.

(** What a stretch of the run adds to the accumulator and to the
    persistence state. *)
Lemma fold_left_paso_inv (w : mundo) (qs : list (string * ciudad_t * string)) :
  forall acc,
  exists nuevos,
    fst (fold_left (paso b w) qs acc) = fst acc ++ nuevos
    /\ map etiqueta nuevos = map etiqueta_consulta (filter (entregada w) qs)
    /\ escrituras (snd (fold_left (paso b w) qs acc))
       = (escrituras (snd acc) + List.length (filter (insertada w) qs))%nat
    /\ ((forall c kw, snd (w c kw) = DbOk) ->
        tabla (snd (fold_left (paso b w) qs acc)) = tabla (snd acc) ++ nuevos)
    /\ ((forall c kw, snd (w c kw) <> DbOk) ->
        tabla (snd (fold_left (paso b w) qs acc)) = tabla (snd acc)).
Proof.
  induction qs as [| [[t c] kw] qs IH]; intros acc.
  - exists []. simpl. rewrite !app_nil_r, Nat.add_0_r. repeat split; auto.
  - cbn [fold_left].
    destruct (paso_eq w acc t c kw) as (d & _ & Hp). cbv zeta in Hp.
    destruct (IH (paso b w acc (t, c, kw)))
      as (nuevos & Hf & He & Hw & Hok & Hko).
    cbn [filter entregada insertada exitosa].
    set (r := construir_resultado b c kw t (lugares (fst (w c kw))) d) in *.
    destruct (guardar_resultado_efectos (snd (w c kw)) r (snd acc))
      as (_ & _ & Hn & Ht).
    destruct (respuesta_exitosa (fst (w c kw))) eqn:Hs; rewrite Hp in *;
      cbn [fst snd andb] in *.
    + destruct (rollback_raises (snd (w c kw))) eqn:Hr; cbn [negb] in *.
      * exists nuevos. split; [exact Hf |]. split; [exact He |].
        split; [rewrite Hw, Hn;
                destruct (envia_insert (snd (w c kw))); simpl; lia |].
        split.
        -- intros Hdb. rewrite (Hdb c kw) in Hr. discriminate.
        -- intros Hdb. rewrite (Hko Hdb), Ht.
           destruct (snd (w c kw)); try discriminate; apply app_nil_r.
      * exists (r :: nuevos). rewrite Hf, <- app_assoc.
        split; [reflexivity |].
        split; [cbn [map]; rewrite He; reflexivity |].
        split; [rewrite Hw, Hn;
                destruct (envia_insert (snd (w c kw))); simpl; lia |].
        split.
        -- intros Hdb. rewrite (Hok Hdb), Ht, (Hdb c kw).
           rewrite <- app_assoc. reflexivity.
        -- intros Hdb. rewrite (Hko Hdb), Ht.
           specialize (Hdb c kw).
           destruct (snd (w c kw)); try congruence; apply app_nil_r.
    + exists nuevos. repeat split; auto.
Qed.

End Recorrido.





(** X12: when every write goes through, the rows added to the table by
    a run are the returned records, in the same order. *)
Theorem recorrer_table_healthy (b : bot) (w : mundo)
  (ciudades_test : list (string * list ciudad_t))
  (core_keywords : list string) (st : estado) :
  (forall c kw, snd (w c kw) = DbOk) ->
  tabla (snd (recorrer b w ciudades_test core_keywords st))
  = tabla st ++ fst (recorrer b w ciudades_test core_keywords st).
Proof.
  intros Hdb. unfold recorrer.
  destruct (fold_left_paso_inv b w
              (combinaciones ciudades_test core_keywords) ([], st))
    as (nuevos & Hf & _ & _ & Hok & _).
  rewrite (Hok Hdb), Hf. reflexivity.
Qed.

(** X13: the records returned by a run depend on the database only
    through the writes whose rollback raises, and not on the
    persistence state at the start: two runs that meet the same search
    answers and the same raising rollbacks return the same records,
    whatever else the database does; when no write goes through the
    table is left as it was. *)
Theorem recorrer_results_independent_of_db (b : bot) (w w' : mundo)
  (ciudades_test : list (string * list ciudad_t))
  (core_keywords : list string) (st st' : estado) :
  (forall c kw, fst (w c kw) = fst (w' c kw)) ->
  (forall c kw, rollback_raises (snd (w c kw))
                = rollback_raises (snd (w' c kw))) ->
  (forall c kw, snd (w' c kw) <> DbOk) ->
  fst (recorrer b w ciudades_test core_keywords st)
  = fst (recorrer b w' ciudades_test core_keywords st')
  /\ tabla (snd (recorrer b w' ciudades_test core_keywords st')) = tabla st'.
Proof.
  intros Hsame Hroll Hko. unfold recorrer. split.
  - generalize (@nil resultado) as acc. revert st st'.
    induction (combinaciones ciudades_test core_keywords)
      as [| [[t c] kw] qs IH]; intros st st' acc; [reflexivity |].
    cbn [fold_left].
    destruct (paso_eq b w (acc, st) t c kw) as (d & Hd & Hp).
    destruct (paso_eq b w' (acc, st') t c kw) as (d' & Hd' & Hp').
    rewrite Hd in Hd'. injection Hd' as <-.
    rewrite Hp, Hp', <- Hsame, <- Hroll. cbv zeta. cbn [fst snd].
    destruct (respuesta_exitosa (fst (w c kw))); [| apply IH].
    destruct (rollback_raises (snd (w c kw))); apply IH.
  - destruct (fold_left_paso_inv b w'
                (combinaciones ciudades_test core_keywords) ([], st'))
      as (nuevos & _ & _ & _ & _ & Hf).
    exact (Hf Hko).
Qed.

Lemma recorrer_table_healthy_witness :
  tabla (snd (recorrer bot_acme mundo_sano ciudades_muestra keywords_muestra
                estado_inicial))
  = tabla estado_inicial
    ++ fst (recorrer bot_acme mundo_sano ciudades_muestra keywords_muestra
              estado_inicial).
Proof.
  apply recorrer_table_healthy. intros c kw. reflexivity.
Defined.

Lemma recorrer_results_independent_of_db_witness :
  fst (recorrer bot_acme mundo_sano ciudades_muestra keywords_muestra
         estado_inicial)
  = fst (recorrer bot_acme mundo_caido ciudades_muestra keywords_muestra
           estado_inicial)
  /\ tabla (snd (recorrer bot_acme mundo_caido ciudades_muestra
                   keywords_muestra estado_inicial))
     = tabla estado_inicial.
Proof.
  apply recorrer_results_independent_of_db.
  - intros c kw. reflexivity.
  - intros c kw. reflexivity.
  - intros c kw. discriminate.
Defined.

(** Four queries in the sample run, three of them answered; with a
    connection lost around Hawthorne the record made there is dropped,
    its insert having been sent. *)
Example recorrer_muestra :
  map etiqueta
      (fst (recorrer bot_acme mundo_sano ciudades_muestra keywords_muestra
              estado_inicial))
  = [("tier_1_immediate", "Lennox", "house cleaning");
     ("tier_1_immediate", "Lennox", "maid service");
     ("tier_2_nearby", "Hawthorne", "maid service")].
Proof.
  destruct (fold_left_paso_inv bot_acme mundo_sano
              (combinaciones ciudades_muestra keywords_muestra)
              ([], estado_inicial)) as (nuevos & Hf & He & _).
  unfold recorrer. rewrite Hf. cbn [fst app]. rewrite He. reflexivity.
Qed.

Example recorrer_muestra_conexion_perdida :
  map etiqueta
      (fst (recorrer bot_acme mundo_conexion_perdida ciudades_muestra
              keywords_muestra estado_inicial))
  = [("tier_1_immediate", "Lennox", "house cleaning");
     ("tier_1_immediate", "Lennox", "maid service")]
  /\ escrituras (snd (recorrer bot_acme mundo_conexion_perdida
                        ciudades_muestra keywords_muestra estado_inicial))
     = 3%nat.
Proof.
  destruct (fold_left_paso_inv bot_acme mundo_conexion_perdida
              (combinaciones ciudades_muestra keywords_muestra)
              ([], estado_inicial)) as (nuevos & Hf & He & Hw & _).
  unfold recorrer. rewrite Hf, Hw. cbn [fst app]. rewrite He.
  split; reflexivity.
Qed.

(** ** Dominance aggregator: coverage by tier *)

Section Zonas.
Local Open Scope Q_scope.

Lemma length_filter_filter {A : Type} (f g : A -> bool) (l : list A) :
  (List.length (filter f (filter g l)) <= List.length (filter f l))%nat.
Proof.
  induction l as [| x l IH]; simpl; [lia |].
  destruct (g x); simpl; destruct (f x); simpl; lia.
Qed.

Lemma mapM_fst_eq {A B : Type} (f : A -> option (A * B)) (l : list A) :
  (forall a v, f a = Some v -> fst v = a) ->
  forall vs, mapM f l = Some vs -> map fst vs = l.
Proof.
  intros Hf. induction l as [| a l IH]; simpl; intros vs.
  - intros [= <-]. reflexivity.
  - destruct (f a) as [v |] eqn:Hv; simpl; [| discriminate].
    destruct (mapM f l) as [vs' |]; simpl; [| discriminate].
    intros [= <-]. simpl. rewrite (Hf a v Hv), (IH vs' eq_refl). reflexivity.
Qed.

(** What one turn of the loop over the tiers reports. *)
Lemma zona_de_some (rs ap : list resultado) (t : string) (z : zona) :
  zona_de rs ap t = Some (Some z) ->
  z_tier z = t
  /\ z_total z = len (filter (por_tier t) rs)
  /\ (0 < z_total z)%Z
  /\ z_apariciones z = len (filter (por_tier t) ap)
  /\ z_cobertura z
     = inject_Z (z_apariciones z) / inject_Z (z_total z) * 100
  /\ map fst (z_ciudades z)
     = sorted_set (map ciudad (filter (por_tier t) ap)).
Proof.
  unfold zona_de. fold (por_tier t).
  destruct (Z.ltb_spec 0 (len (filter (por_tier t) rs))) as [Hpos | _];
    [| discriminate].
  match goal with
  | |- context [ mapM ?f ?l ] =>
      destruct (mapM f l) as [cs |] eqn:Hcs; simpl; [| discriminate];
      pose proof (mapM_fst_eq f l) as Hfst
  end.
  intros [= <-]. cbn [z_tier z_total z_apariciones z_cobertura z_ciudades].
  repeat split; auto.
  apply Hfst; [| exact Hcs].
  intros c v. 
  destruct (sum_posiciones _) as [s |]; simpl; [| discriminate].
  destruct (truediv _ _) as [m |]; simpl; [| discriminate].
  intros [= <-]. reflexivity.
Qed.

Lemma zona_de_none (rs ap : list resultado) (t : string) :
  zona_de rs ap t = Some None -> len (filter (por_tier t) rs) = 0%Z.
Proof.
  unfold zona_de. fold (por_tier t).
  destruct (Z.ltb_spec 0 (len (filter (por_tier t) rs))) as [Hpos | Hle].
  - match goal with
    | |- context [ mapM ?f ?l ] => destruct (mapM f l); simpl; discriminate
    end.
  - intros _. unfold len in *. lia.
Qed.

(** The zones reported are those of the tiers that have results, in
    the order of the tiers. *)
Lemma zonas_tiers (rs ap : list resultado) (ts : list string) :
  forall ozs, mapM (zona_de rs ap) ts = Some ozs ->
    map z_tier (somes ozs)
    = filter (fun t => (0 <? len (filter (por_tier t) rs))%Z) ts
    /\ (forall z, In z (somes ozs) ->
                  zona_de rs ap (z_tier z) = Some (Some z)).
Proof.
  induction ts as [| t ts IH]; simpl; intros ozs.
  - intros [= <-]. split; [reflexivity | intros z []].
  - destruct (zona_de rs ap t) as [oz |] eqn:Hz; simpl; [| discriminate].
    destruct (mapM (zona_de rs ap) ts) as [ozs' |]; simpl; [| discriminate].
    intros [= <-]. destruct (IH ozs' eq_refl) as [IHt IHz].
    destruct oz as [z |]; cbn [somes].
    + destruct (zona_de_some _ _ _ _ Hz) as (Ht & Htot & Hpos & _).
      rewrite <- Htot. destruct (Z.ltb_spec 0 (z_total z)); [| lia].
      cbn [map]. rewrite Ht, IHt. split; [reflexivity |].
      intros z' [<- | Hz']; [now rewrite Ht | now apply IHz].
    + rewrite (zona_de_none _ _ _ Hz). simpl. split; assumption.
Qed.

Lemma cobertura_bounds (a n : Z) :
  (0 <= a <= n)%Z -> (0 < n)%Z ->
  0 <= inject_Z a / inject_Z n * 100 <= 100.
Proof.
  intros [Ha Han] Hn.
  assert (Hn' : 0 < inject_Z n)
    by (change 0 with (inject_Z 0); now rewrite <- Zlt_Qlt).
  assert (Ha' : 0 <= inject_Z a)
    by (change 0 with (inject_Z 0); now rewrite <- Zle_Qle).
  assert (Han' : inject_Z a <= inject_Z n) by (now rewrite <- Zle_Qle).
  assert (H0 : 0 <= inject_Z a / inject_Z n)
    by (apply Qle_shift_div_l; [exact Hn' | lra]).
  assert (H1 : inject_Z a / inject_Z n <= 1)
    by (apply Qle_shift_div_r; [exact Hn' | lra]).
  split; lra.
Qed.

End Zonas.

Section Informe.
Local Open Scope Q_scope.

(** The parts of a report over a collection with some presence. *)
Lemma generar_mapa_dominio_shape (rs : list resultado) (m : informe_dominio) :
  _generar_mapa_dominio rs = Some m ->
  filter aparece rs <> [] ->
  exists dmax dmin avg ozs s,
    m = Dominio dmax dmin avg (somes ozs)
    /\ py_max (map distancia_km (filter aparece rs)) = Some dmax
    /\ py_min (map distancia_km (filter aparece rs)) = Some dmin
    /\ sum_posiciones (filter aparece rs) = Some s
    /\ truediv s (len (filter aparece rs)) = Some avg
    /\ mapM (zona_de rs (filter aparece rs)) tiers = Some ozs.
Proof.
  unfold _generar_mapa_dominio. intros H Hne.
  destruct (filter aparece rs) as [| r0 rest] eqn:Hp; [congruence |].
  rewrite <- Hp in *.
  destruct (py_max _) as [dmax |] eqn:E0; cbn [bind] in H; [| discriminate].
  destruct (py_min _) as [dmin |] eqn:E1; cbn [bind] in H; [| discriminate].
  destruct (sum_posiciones _) as [s |] eqn:E2; cbn [bind] in H; [| discriminate].
  destruct (truediv _ _) as [avg |] eqn:E3; cbn [bind] in H; [| discriminate].
  destruct (mapM _ tiers) as [ozs |] eqn:E4; cbn [bind] in H; [| discriminate].
  injection H as <-. exists dmax, dmin, avg, ozs, s. repeat split; auto.
Qed.

(** X14: in a dominance report the zones are those of the four tiers
    that have at least one result, in the order of the tiers; each zone
    counts the results of its tier and the present ones among them, and
    its coverage is a percentage between 0 and 100. *)
Theorem generar_mapa_dominio_zonas (rs : list resultado) :
  Forall bien_formado rs ->
  filter aparece rs <> [] ->
  exists dmax dmin avg zs,
    _generar_mapa_dominio rs = Some (Dominio dmax dmin avg zs)
    /\ map z_tier zs
       = filter (fun t => (0 <? len (filter (por_tier t) rs))%Z) tiers
    /\ forall z, In z zs ->
         z_total z = len (filter (por_tier (z_tier z)) rs)
         /\ z_apariciones z
            = len (filter (por_tier (z_tier z)) (filter aparece rs))
         /\ (0 <= z_apariciones z <= z_total z)%Z
         /\ (0 < z_total z)%Z
         /\ z_cobertura z
            == inject_Z (z_apariciones z) / inject_Z (z_total z) * 100
         /\ 0 <= z_cobertura z <= 100.
Proof.
  intros Hwf Hne.
  destruct (generar_mapa_dominio_total rs Hwf) as [m Hm].
  destruct (generar_mapa_dominio_shape rs m Hm Hne)
    as (dmax & dmin & avg & ozs & s & -> & _ & _ & _ & _ & Hz).
  destruct (zonas_tiers _ _ _ _ Hz) as [Ht Hin].
  exists dmax, dmin, avg, (somes ozs).
  split; [exact Hm |]. split; [exact Ht |].
  intros z Hz'. apply Hin in Hz'.
  destruct (zona_de_some _ _ _ _ Hz') as (_ & Htot & Hpos & Hap & Hcob & _).
  assert (Hle : (0 <= z_apariciones z <= z_total z)%Z).
  { rewrite Hap, Htot. unfold len. split; [lia |].
    apply Nat2Z.inj_le, length_filter_filter. }
  repeat split; try assumption; try lia.
  - rewrite Hcob. reflexivity.
  - rewrite Hcob. now apply cobertura_bounds.
  - rewrite Hcob. now apply cobertura_bounds.
Qed.

Lemma In_fold_insertar_nombre (x : string) (l : list string) :
  In x (fold_right insertar_nombre [] l) <-> In x l.
Proof.
  induction l as [| y l IH]; simpl; [tauto |].
  rewrite In_insertar_nombre, IH. intuition.
Qed.

Lemma ltb_false_lt (x y : string) :
  String.ltb y x = false -> x <> y -> String.ltb x y = true.
Proof.
  unfold String.ltb. intros H Hne.
  rewrite String.compare_antisym.
  destruct (String.compare y x) eqn:E; simpl; try reflexivity;
    try discriminate.
  apply String.compare_eq_iff in E. congruence.
Qed.

Lemma insertar_nombre_HdRel (a x : string) (l : list string) :
  HdRel nombre_lt a l -> nombre_lt a x ->
  HdRel nombre_lt a (insertar_nombre x l).
Proof.
  intros Hl Hx. destruct l as [| y l]; simpl; [now constructor |].
  destruct (String.ltb y x); constructor; [now inversion Hl | exact Hx].
Qed.

Lemma insertar_nombre_Sorted (x : string) (l : list string) :
  ~ In x l -> Sorted nombre_lt l -> Sorted nombre_lt (insertar_nombre x l).
Proof.
  intros Hx Hs. induction Hs as [| y l Hs IH Hhd]; simpl;
    [repeat constructor |].
  destruct (String.ltb y x) eqn:E.
  - constructor; [apply IH; simpl in Hx; tauto |].
    now apply insertar_nombre_HdRel.
  - constructor; [now constructor |]. constructor.
    apply ltb_false_lt; [exact E |]. simpl in Hx. intros ->. tauto.
Qed.

(** [sorted(set(...))] lists each name once, in increasing order. *)
Lemma sorted_set_Sorted (l : list string) : Sorted nombre_lt (sorted_set l).
Proof.
  unfold sorted_set. pose proof (NoDup_nodup string_dec l) as Hnd.
  induction Hnd as [| x n Hx Hnd IH]; simpl; [constructor |].
  apply insertar_nombre_Sorted; [| exact IH].
  now rewrite In_fold_insertar_nombre.
Qed.

(** X15: within a zone the locations with presence are listed once
    each, in strictly increasing order of their names, and they are
    exactly the locations of the tier's present results. *)
Theorem generar_mapa_dominio_zone_cities (rs : list resultado) :
  Forall bien_formado rs ->
  filter aparece rs <> [] ->
  exists dmax dmin avg zs,
    _generar_mapa_dominio rs = Some (Dominio dmax dmin avg zs)
    /\ forall z, In z zs ->
         Sorted nombre_lt (map fst (z_ciudades z))
         /\ forall c, In c (map fst (z_ciudades z))
                      <-> exists r, In r rs /\ aparece r = true
                                    /\ tier r = z_tier z /\ ciudad r = c.
Proof.
  intros Hwf Hne.
  destruct (generar_mapa_dominio_total rs Hwf) as [m Hm].
  destruct (generar_mapa_dominio_shape rs m Hm Hne)
    as (dmax & dmin & avg & ozs & s & -> & _ & _ & _ & _ & Hz).
  destruct (zonas_tiers _ _ _ _ Hz) as [_ Hin].
  exists dmax, dmin, avg, (somes ozs). split; [exact Hm |].
  intros z Hz'. apply Hin in Hz'.
  destruct (zona_de_some _ _ _ _ Hz') as (_ & _ & _ & _ & _ & Hcs).
  rewrite Hcs. split; [apply sorted_set_Sorted |].
  intros c. rewrite In_sorted_set, in_map_iff. split.
  - intros (r & Hc & Hr). apply filter_In in Hr as [Hr Ht].
    apply filter_In in Hr as [Hr Hap].
    exists r. repeat split; auto. now apply String.eqb_eq.
  - intros (r & Hr & Hap & Ht & Hc). exists r. split; [exact Hc |].
    apply filter_In. split; [apply filter_In; now split |].
    now apply String.eqb_eq.
Qed.

End Informe.

Lemma generar_mapa_dominio_zonas_witness :
  exists dmax dmin avg zs,
    _generar_mapa_dominio rs_presencia = Some (Dominio dmax dmin avg zs)
    /\ map z_tier zs = ["tier_1_immediate"; "tier_2_nearby"; "tier_3_medium"]
    /\ map (fun z => (z_apariciones z, z_total z)) zs
       = [(2, 2); (1, 1); (0, 1)]%Z.
Proof.
  destruct (generar_mapa_dominio_zonas rs_presencia)
    as (dmax & dmin & avg & zs & Heq & _);
    [repeat constructor | discriminate |].
  exists dmax, dmin, avg, zs. split; [exact Heq |].
  vm_compute in Heq. injection Heq as <- <- <- <-.
  split; reflexivity.
Defined.

Lemma generar_mapa_dominio_zone_cities_witness :
  exists dmax dmin avg zs,
    _generar_mapa_dominio rs_presencia = Some (Dominio dmax dmin avg zs)
    /\ map (fun z => map fst (z_ciudades z)) zs
       = [["Lennox"; "Westchester"]; ["Culver City"]; []].
Proof.
  destruct (generar_mapa_dominio_zone_cities rs_presencia)
    as (dmax & dmin & avg & zs & Heq & _);
    [repeat constructor | discriminate |].
  exists dmax, dmin, avg, zs. split; [exact Heq |].
  vm_compute in Heq. injection Heq as <- <- <- <-.
  reflexivity.
Defined.

(** ** The run as a whole *)

Section Corrida.
Local Open Scope Q_scope.

Lemma analizar_ciudad_registro_valido (b : bot) (resp : respuesta)
  (o : db_outcome) (c : ciudad_t) (kw tr : string) (st st' : estado)
  (r : resultado) :
  analizar_ciudad b resp o c kw tr st = (Some r, st') -> registro_valido r.
Proof.
  destruct (analizar_ciudad_eq b resp o c kw tr st) as (d & Hd & Heq).
  rewrite Heq. cbv zeta.
  destruct (respuesta_exitosa resp); [| discriminate].
  destruct (rollback_raises o); [discriminate |].
  intros [= <- _]. split; [reflexivity |]. split.
  - cbn [distancia_km construir_resultado].
    apply _calcular_distancia_bounds in Hd as [H0 _].
    unfold round2_R, Qle. simpl.
    assert (Hn : (0 <= round_half_even_R (d * 100))%Z)
      by (apply round_half_even_R_nonneg; lra).
    lia.
  - intros k Hk. cbn [posicion construir_resultado] in Hk.
    apply tu_posicion_some in Hk as (i & p & -> & Hi & _). lia.
Qed.

Lemma recorrer_registro_valido (b : bot) (w : mundo)
  (ciudades_test : list (string * list ciudad_t))
  (core_keywords : list string) (st : estado) :
  Forall registro_valido
    (fst (recorrer b w ciudades_test core_keywords st)).
Proof.
  unfold recorrer.
  assert (H : forall qs acc, Forall registro_valido (fst acc) ->
            Forall registro_valido (fst (fold_left (paso b w) qs acc))).
  { induction qs as [| [[t c] kw] qs IH]; intros acc Hacc; [exact Hacc |].
    cbn [fold_left]. apply IH.
    unfold paso. destruct (w c kw) as [resp o].
    destruct (analizar_ciudad b resp o c kw t (snd acc))
      as [[r |] st'] eqn:E; [| exact Hacc].
    cbn [fst]. apply Forall_app. split; [exact Hacc |].
    constructor; [| constructor].
    exact (analizar_ciudad_registro_valido _ _ _ _ _ _ _ _ _ E). }
  apply H. constructor.
Qed.

Lemma Forall_registro_bien_formado (rs : list resultado) :
  Forall registro_valido rs -> Forall bien_formado rs.
Proof. apply Forall_impl. intros r [H _]. exact H. Qed.

Lemma truediv_bounds (lo hi s n : Z) (q : Q) :
  (0 < n)%Z -> (lo * n <= s <= hi * n)%Z -> truediv s n = Some q ->
  inject_Z lo <= q <= inject_Z hi.
Proof.
  intros Hn [Hlo Hhi]. unfold truediv.
  destruct (Z.eqb_spec n 0); [lia |]. intros [= <-].
  assert (Hn' : 0 < inject_Z n)
    by (change 0 with (inject_Z 0); now rewrite <- Zlt_Qlt).
  split.
  - apply Qle_shift_div_l; [exact Hn' |].
    rewrite <- inject_Z_mult, <- Zle_Qle. exact Hlo.
  - apply Qle_shift_div_r; [exact Hn' |].
    rewrite <- inject_Z_mult, <- Zle_Qle. exact Hhi.
Qed.

(** Over valid records the report keeps the minimum below the maximum,
    both non-negative, and the average position between 1 and 20. *)
Lemma generar_mapa_dominio_bounds (rs : list resultado)
  (dmax dmin avg : Q) (zs : list zona) :
  Forall registro_valido rs ->
  _generar_mapa_dominio rs = Some (Dominio dmax dmin avg zs) ->
  0 <= dmin /\ dmin <= dmax /\ 1 <= avg <= 20.
Proof.
  intros Hv Hm.
  assert (Hne : filter aparece rs <> []).
  { intros E. unfold _generar_mapa_dominio in Hm. rewrite E in Hm.
    discriminate. }
  destruct (generar_mapa_dominio_shape rs _ Hm Hne)
    as (dmax' & dmin' & avg' & ozs & s & [= <- <- <- _]
        & Hmax & Hmin & Hs & Hav & _).
  assert (Hvp : Forall registro_valido (filter aparece rs)).
  { rewrite Forall_forall in *. intros r Hr. apply Hv.
    now apply filter_In in Hr as [Hr _]. }
  destruct (filter aparece rs) as [| r0 rest] eqn:Hp; [congruence |].
  cbn [py_max py_min map] in Hmax, Hmin.
  injection Hmax as <-. injection Hmin as <-.
  destruct (max_from_spec (map distancia_km rest) (distancia_km r0))
    as [_ Hle1].
  destruct (min_from_spec (map distancia_km rest) (distancia_km r0))
    as [Hin2 Hle2].
  split; [| split].
  - change (distancia_km r0 :: map distancia_km rest)
      with (map distancia_km (r0 :: rest)) in Hin2.
    apply in_map_iff in Hin2 as (r & <- & Hr).
    rewrite Forall_forall in Hvp. now destruct (Hvp r Hr) as (_ & H0 & _).
  - apply Qle_trans with (distancia_km r0);
      [apply Hle2 | apply Hle1]; now left.
  - unfold sum_posiciones in Hs.
    destruct (mapM posicion (r0 :: rest)) as [ps |] eqn:Hps;
      [| discriminate].
    cbn [bind] in Hs. injection Hs as <-.
    assert (Hlen : len ps = len (r0 :: rest)).
    { unfold len. f_equal. clear - Hps. revert ps Hps.
      generalize (r0 :: rest) as l.
      induction l as [| r l IH]; simpl; intros ps.
      - intros [= <-]. reflexivity.
      - destruct (posicion r); simpl; [| discriminate].
        destruct (mapM posicion l) as [ps' |]; simpl; [| discriminate].
        intros [= <-]. simpl. now rewrite (IH ps' eq_refl). }
    apply (truediv_bounds 1 20 (sum_Z ps) (len (r0 :: rest)));
      [unfold len; simpl; lia | | exact Hav].
    rewrite <- Hlen. apply sum_Z_bounds.
    intros k Hk. destruct (mapM_In _ _ _ _ Hps Hk) as (r & Hr & Hpos).
    rewrite Forall_forall in Hvp. destruct (Hvp r Hr) as (_ & _ & Hb).
    now apply Hb.
Qed.

End Corrida.

(** X16: whatever the search service and the database do, and however
    the set of names is iterated, a run ends with its results and both
    reports, none of them raising; when the subject appears somewhere,
    the dominance report has a minimum distance that is not negative and
    not above the dominance radius, and an average position between 1
    and 20; otherwise it is the no-dominance state and every result is
    a non-present one. *)
Theorem ejecutar_analisis_fronteras_report (b : bot) (w : mundo)
  (iter : list string -> list string)
  (ciudades_test : list (string * list ciudad_t))
  (core_keywords : list string) (st : estado) :
  orden_de_set iter ->
  exists rs mapa recomendaciones st',
    ejecutar_analisis_fronteras b w iter ciudades_test core_keywords st
    = (Some (rs, mapa, recomendaciones), st')
    /\ (rs, st') = recorrer b w ciudades_test core_keywords st
    /\ match mapa with
       | SinApariciones => forall r, In r rs -> aparece r = false
       | Dominio dmax dmin avg _ =>
           (0 <= dmin)%Q /\ (dmin <= dmax)%Q /\ (1 <= avg <= 20)%Q
       end.
Proof.
  intros Hiter. unfold ejecutar_analisis_fronteras.
  pose proof (recorrer_registro_valido b w ciudades_test core_keywords st)
    as Hv.
  destruct (recorrer b w ciudades_test core_keywords st) as [rs st'].
  cbn [fst] in Hv.
  destruct (ciudades_oportunidad_ok iter rs Hiter) as (d & Hd & _).
  destruct (generar_mapa_dominio_total rs
              (Forall_registro_bien_formado rs Hv)) as [m Hm].
  exists rs, m, (enumerar 1 (firstn 10 (sorted_por_distancia d))), st'.
  split.
  { rewrite Hm. unfold _generar_recomendaciones_expansion, ciudades_ordenadas.
    rewrite Hd. reflexivity. }
  split; [reflexivity |].
  destruct m as [| dmax dmin avg zs].
  - intros r Hr. destruct (aparece r) eqn:Hap; [| reflexivity].
    exfalso. unfold _generar_mapa_dominio in Hm.
    destruct (filter aparece rs) as [| r0 rest] eqn:Hp.
    + assert (Hin : In r (filter aparece rs))
        by (apply filter_In; now split).
      rewrite Hp in Hin. destruct Hin.
    + destruct (generar_mapa_dominio_shape rs SinApariciones)
        as (? & ? & ? & ? & ? & Habs & _);
        [unfold _generar_mapa_dominio; rewrite Hp; exact Hm
        | rewrite Hp; discriminate | discriminate Habs].
  - now apply (generar_mapa_dominio_bounds rs dmax dmin avg zs).
Qed.

Lemma ejecutar_analisis_fronteras_report_witness :
  orden_de_set orden_inverso
  /\ exists rs mapa recomendaciones st',
       ejecutar_analisis_fronteras bot_acme mundo_caido orden_inverso
         ciudades_muestra keywords_muestra estado_inicial
       = (Some (rs, mapa, recomendaciones), st')
       /\ (rs, st')
          = recorrer bot_acme mundo_caido ciudades_muestra keywords_muestra
              estado_inicial
       /\ match mapa with
          | SinApariciones => forall r, In r rs -> aparece r = false
          | Dominio dmax dmin avg _ =>
              (0 <= dmin)%Q /\ (dmin <= dmax)%Q /\ (1 <= avg <= 20)%Q
          end.
Proof.
  split; [exact orden_de_set_orden_inverso |].
  apply ejecutar_analisis_fronteras_report.
  exact orden_de_set_orden_inverso.
Defined.

(** ** Opportunity ranker: empty report, ties and the ten nearest *)

Section Oportunidades.
Local Open Scope Q_scope.

Lemma no_apariciones_nil (rs : list resultado) :
  no_apariciones rs = [] <-> (forall r, In r rs -> aparece r = true).
Proof.
  unfold no_apariciones. split.
  - intros E r Hr. destruct (aparece r) eqn:Hap; [reflexivity |].
    assert (Hin : In r (filter (fun r0 => negb (aparece r0)) rs))
      by (apply filter_In; rewrite Hap; now split).
    rewrite E in Hin. destruct Hin.
  - intros H. induction rs as [| r rs IH]; [reflexivity |].
    simpl. rewrite (H r (or_introl eq_refl)). simpl.
    apply IH. intros r' Hr'. apply H. now right.
Qed.

(** X17: the report of opportunities is empty exactly when every
    result is a present one (in particular on no result at all); the
    ranker raises nothing in either case. *)
Theorem generar_recomendaciones_empty_iff
  (iter : list string -> list string) (rs : list resultado) :
  orden_de_set iter ->
  exists out,
    _generar_recomendaciones_expansion iter rs = Some out
    /\ (out = [] <-> forall r, In r rs -> aparece r = true).
Proof.
  intros Hiter.
  destruct (ciudades_oportunidad_ok iter rs Hiter) as (d & Hd & _ & Hk & Hp).
  exists (enumerar 1 (firstn 10 (sorted_por_distancia d))). split.
  { unfold _generar_recomendaciones_expansion, ciudades_ordenadas.
    rewrite Hd. reflexivity. }
  rewrite <- no_apariciones_nil.
  assert (Hlen : List.length (enumerar 1 (firstn 10 (sorted_por_distancia d)))
                 = Nat.min 10 (List.length d)).
  { rewrite length_enumerar, length_firstn.
    now rewrite (Permutation_length (sorted_por_distancia_Permutation d)). }
  assert (Hd0 : d = [] <-> no_apariciones rs = []).
  { split.
    - intros ->. apply Permutation_nil in Hp.
      destruct (no_apariciones rs); [reflexivity | discriminate].
    - intros E. rewrite E in Hp. simpl in Hp.
      now apply Permutation_sym, Permutation_nil in Hp. }
  rewrite <- Hd0. split.
  - intros E. rewrite E in Hlen. destruct d; [reflexivity |].
    simpl in Hlen. discriminate.
  - intros ->. reflexivity.
Qed.

Lemma NoDup_map_eq {A B : Type} (f : A -> B) (l : list A) (x y : A) :
  NoDup (map f l) -> In x l -> In y l -> f x = f y -> x = y.
Proof.
  induction l as [| a l IH]; simpl; [tauto |].
  intros Hnd Hx Hy Hf. inversion Hnd as [| ? ? Ha Hnd']; subst.
  destruct Hx as [<- | Hx], Hy as [<- | Hy]; auto.
  - exfalso. apply Ha. rewrite Hf. now apply in_map.
  - exfalso. apply Ha. rewrite <- Hf. now apply in_map.
Qed.

Lemma In_deduplicar (rs : list resultado) (r : resultado) :
  In r (deduplicar rs) -> In r rs.
Proof.
  induction rs as [| r0 rs IH]; simpl; [tauto |].
  intros [<- | Hr]; [now left |].
  apply filter_In in Hr as [Hr _]. right. now apply IH.
Qed.

(** Two ascending lists with the same items, no two of which share a
    key, are equal. *)
Lemma sorted_unique (l1 l2 : dict) :
  StronglySorted le_distancia l1 -> StronglySorted le_distancia l2 ->
  Permutation l1 l2 ->
  (forall x y, In x l1 -> In y l1 -> clave x == clave y -> x = y) ->
  l1 = l2.
Proof.
  intros H1; revert l2.
  induction H1 as [| x l1 Hs1 IH Hx]; intros l2 H2 Hp Hk.
  - apply Permutation_nil in Hp. now subst.
  - destruct H2 as [| y l2 Hs2 Hy].
    + apply Permutation_sym, Permutation_nil in Hp. discriminate.
    + assert (Exy : x = y).
      { assert (Hyin : In y (x :: l1))
          by (apply (Permutation_in _ (Permutation_sym Hp)); now left).
        assert (Hxin : In x (y :: l2))
          by (apply (Permutation_in _ Hp); now left).
        destruct Hyin as [E | Hyin]; [exact E |].
        destruct Hxin as [E | Hxin]; [now symmetry |].
        rewrite Forall_forall in Hx, Hy.
        apply Hk; [now left | now right |].
        apply Qle_antisym; [apply (Hx y Hyin) | apply (Hy x Hxin)]. }
      subst y. f_equal. apply IH; [exact Hs2 | |].
      * now apply Permutation_cons_inv in Hp.
      * intros a c Ha Hc. apply Hk; now right.
Qed.

(** X18: when non-present results at equal distance always belong to
    one location, the report does not depend on the order in which the
    set of names is iterated: it is the first-wins deduplication of the
    non-present results, sorted by distance and cut at ten. *)
Theorem generar_recomendaciones_without_ties
  (iter : list string -> list string) (rs : list resultado) :
  orden_de_set iter ->
  (forall r1 r2, In r1 (no_apariciones rs) -> In r2 (no_apariciones rs) ->
                 distancia_km r1 == distancia_km r2 ->
                 ciudad r1 = ciudad r2) ->
  _generar_recomendaciones_expansion iter rs = Some (rank_spec rs).
Proof.
  intros Hiter Hties.
  destruct (ciudades_oportunidad_ok iter rs Hiter) as (d & Hd & _ & _ & Hp).
  unfold _generar_recomendaciones_expansion, ciudades_ordenadas, rank_spec.
  rewrite Hd. cbn [bind]. do 3 f_equal.
  set (na := no_apariciones rs) in *.
  set (d0 := map entrada_de (deduplicar na)) in *.
  apply sorted_unique; try apply sorted_por_distancia_Sorted.
  - rewrite !sorted_por_distancia_Permutation. exact Hp.
  - intros x y Hx Hy Hxy.
    apply (Permutation_in _ (sorted_por_distancia_Permutation d)) in Hx, Hy.
    apply (Permutation_in _ Hp) in Hx, Hy.
    unfold d0 in Hx, Hy.
    apply in_map_iff in Hx as (r1 & <- & Hr1).
    apply in_map_iff in Hy as (r2 & <- & Hr2).
    assert (E : r1 = r2).
    { apply (NoDup_map_eq ciudad (deduplicar na)); auto.
      - rewrite map_ciudad_deduplicar. apply NoDup_primera_aparicion.
      - apply Hties; [now apply In_deduplicar | now apply In_deduplicar |].
        exact Hxy. }
    now subst.
Qed.

Lemma generar_recomendaciones_without_ties_witness :
  _generar_recomendaciones_expansion orden_inverso rs_ausentes
  = Some (rank_spec rs_ausentes).
Proof.
  apply generar_recomendaciones_without_ties;
    [exact orden_de_set_orden_inverso |].
  intros r1 r2 H1 H2.
  simpl in H1, H2.
  destruct H1 as [<- | [<- | [<- | [<- | []]]]];
    destruct H2 as [<- | [<- | [<- | [<- | []]]]];
    intros H; try reflexivity; vm_compute in H; discriminate H.
Defined.

Lemma StronglySorted_app_le {A : Type} (R : A -> A -> Prop) (l1 l2 : list A) :
  StronglySorted R (l1 ++ l2) ->
  forall x y, In x l1 -> In y l2 -> R x y.
Proof.
  induction l1 as [| a l1 IH]; simpl; intros Hs x y Hx Hy; [destruct Hx |].
  inversion Hs as [| ? ? Hs' Ha]; subst.
  destruct Hx as [<- | Hx]; [| now apply IH].
  rewrite Forall_forall in Ha. apply Ha, in_or_app. now right.
Qed.

Lemma In_enumerar (l : dict) :
  forall i x, In x (enumerar i l) -> In (cand_ciudad x, cand_data x) l.
Proof.
  induction l as [| [c v] l IH]; intros i x; simpl; [tauto |].
  intros [<- | Hx]; [now left | right; now apply (IH (i + 1)%Z)].
Qed.

(** X19: the locations reported are the nearest: a candidate location
    left out of the report is at least as far as every reported one. *)
Theorem generar_recomendaciones_nearest
  (iter : list string -> list string) (rs : list resultado) :
  orden_de_set iter ->
  exists d out,
    ciudades_oportunidad iter rs = Some d
    /\ _generar_recomendaciones_expansion iter rs = Some out
    /\ forall x c v,
         In x out -> In (c, v) d -> ~ In c (map cand_ciudad out) ->
         distancia (cand_data x) <= distancia v.
Proof.
  intros Hiter.
  destruct (ciudades_oportunidad_ok iter rs Hiter) as (d & Hd & _).
  exists d, (enumerar 1 (firstn 10 (sorted_por_distancia d))).
  split; [exact Hd |]. split.
  { unfold _generar_recomendaciones_expansion, ciudades_ordenadas.
    rewrite Hd. reflexivity. }
  intros x c v Hx Hcv Hout.
  pose proof (sorted_por_distancia_Sorted d) as Hs.
  rewrite <- (firstn_skipn 10 (sorted_por_distancia d)) in Hs.
  apply In_enumerar in Hx.
  assert (Hin : In (c, v) (sorted_por_distancia d))
    by (apply (Permutation_in _
                 (Permutation_sym (sorted_por_distancia_Permutation d)));
        exact Hcv).
  rewrite <- (firstn_skipn 10 (sorted_por_distancia d)) in Hin.
  apply in_app_or in Hin as [Hin | Hin].
  - exfalso. apply Hout. rewrite map_cand_ciudad_enumerar.
    apply in_map_iff. now exists (c, v).
  - exact (StronglySorted_app_le _ _ _ Hs _ _ Hx Hin).
Qed.

End Oportunidades.

Lemma generar_recomendaciones_empty_iff_witness :
  orden_de_set primera_aparicion
  /\ exists out,
       _generar_recomendaciones_expansion primera_aparicion
         [muestra "Lennox" "tier_1_immediate" "maid service"
                  (Some 1%Z) 2.56 4.4 95] = Some out
       /\ out = [].
Proof.
  split; [exact orden_de_set_primera_aparicion |].
  destruct (generar_recomendaciones_empty_iff primera_aparicion
              [muestra "Lennox" "tier_1_immediate" "maid service"
                       (Some 1%Z) 2.56 4.4 95]
              orden_de_set_primera_aparicion) as (out & Heq & Hiff).
  exists out. split; [exact Heq |].
  apply Hiff. intros r [<- | []]. reflexivity.
Defined.

(** Eleven absent locations: Torrance, at 14.04 km, is left out of the
    report, and every reported location is at most that far. *)
Lemma generar_recomendaciones_nearest_witness :
  orden_de_set orden_inverso
  /\ exists d out,
       ciudades_oportunidad orden_inverso rs_once = Some d
       /\ _generar_recomendaciones_expansion orden_inverso rs_once
          = Some out
       /\ In ("Torrance", oportunidad_de r_torrance) d
       /\ ~ In "Torrance" (map cand_ciudad out)
       /\ List.length out = 10%nat
       /\ forall x, In x out ->
                    (distancia (cand_data x) <= 14.04)%Q.
Proof.
  split; [exact orden_de_set_orden_inverso |].
  destruct (generar_recomendaciones_nearest orden_inverso rs_once
              orden_de_set_orden_inverso) as (d & out & Hd & Hout & Hnear).
  exists d, out. split; [exact Hd |]. split; [exact Hout |].
  assert (Hin : In ("Torrance", oportunidad_de r_torrance) d).
  { vm_compute in Hd. injection Hd as <-.
    do 7 right. left. reflexivity. }
  assert (Hno : ~ In "Torrance" (map cand_ciudad out)).
  { vm_compute in Hout. injection Hout as <-. simpl.
    intros H. repeat (destruct H as [H | H]; [discriminate H |]). exact H. }
  split; [exact Hin |]. split; [exact Hno |].
  split; [vm_compute in Hout; injection Hout as <-; reflexivity |].
  intros x Hx. exact (Hnear x "Torrance" _ Hx Hin Hno).
Defined.
